(** * InteriorAI: the placement model, the composite builder and the session
      state of [src/index.tsx]

    The application is one React component, [App].  Its state lives in
    [useState] cells and in one mutable ref ([interactionState]); every
    handler reads the values of the current render and calls setters.

    The embedding keeps that shape: a handler is a function from the values
    it reads to the list of effects it performs (setter calls, console
    output, canvas draw calls, requests to the generation service), and
    [run] applies the setter calls to a [State] in the order the handler
    issues them.

    JavaScript numbers that carry geometry are modelled as exact rationals
    ([Q]): there is no rounding, no NaN and no infinity in this model, and
    statements about quotients are made where the divisor is positive.
    [Date.now()] is an integer number of milliseconds ([Z]).  A value that
    may be [null] or [undefined] is an [option]. *)

From Stdlib Require Import List String Ascii Bool ZArith QArith Qminmax Lia Lqa.
From Stdlib Require Import Sorted Permutation.
Import ListNotations.

Local Open Scope Q_scope.

(** ** Numbers *)

Module Num.

(** [a > b] on numbers, as a boolean. *)
Definition gtb (a b : Q) : bool := negb (Qle_bool a b).

(** The quotient of two integer pixel counts. *)
Definition ratio (w h : Z) : Q := inject_Z w / inject_Z h.

End Num.

(** ** Data model *)

(** [interface Product]. *)
Record Product := mkProduct {
  id : Z;
  src : string;
  x : Q;
  y : Q;
  width : Q;
  height : Q;
  aspectRatio : Q;
  description : string
}.

(** An entry of [availableProducts]: [{ src; description }]. *)
Record CatalogEntry := mkEntry {
  entry_src : string;
  entry_description : string
}.

(** The value of [previousState] when it is not [null]. *)
Record Snapshot := mkSnapshot {
  snap_displayImage : option string;
  snap_placedProducts : list Product
}.

(** ['move' | 'resize' | null]. *)
Inductive InteractionType := Move | Resize.

(** The record held by [interactionState.current]. *)
Record Interaction := mkInteraction {
  type : option InteractionType;
  productId : Z;
  startX : Q;
  startY : Q;
  startLeft : Q;
  startTop : Q;
  startWidth : Q;
  startHeight : Q
}.

(** The [useState] cells of [App] and the [interactionState] ref. *)
Record State := mkState {
  originalRoomImage : option string;
  displayImage : option string;
  availableProducts : list CatalogEntry;
  placedProducts : list Product;
  selectedProductId : option Z;
  isLoading : bool;
  isProcessingProducts : bool;
  error : option string;
  previousState : option Snapshot;
  userInstructions : string;
  interactionState : option Interaction
}.

Definition initialState : State :=
  {| originalRoomImage := None;
     displayImage := None;
     availableProducts := [];
     placedProducts := [];
     selectedProductId := None;
     isLoading := false;
     isProcessingProducts := false;
     error := None;
     previousState := None;
     userInstructions := EmptyString;
     interactionState := None |}.

(** JavaScript truthiness of a [string | null] value: [null], [undefined]
    and the empty string are falsy. *)
Definition truthy (v : option string) : bool :=
  match v with
  | None => false
  | Some s => negb (String.eqb s EmptyString)
  end.

(** ** Strings

    A character is a UTF-16 code unit below 256 (the Latin-1 range), so
    text is a [string]; text with higher code units is outside the model. *)

Module Str.

Local Open Scope string_scope.

Definition dquote : string :=
  String (Ascii false true false false false true false false) EmptyString.

Definition newline : string :=
  String (Ascii false true false true false false false false) EmptyString.

(** White space and line terminators removed by [String.prototype.trim]:
    among the code units below 256 these are TAB, LF, VT, FF, CR, SPACE
    and NO-BREAK SPACE (9 to 13, 32 and 160). *)
Definition isWhiteSpace (c : ascii) : bool :=
  let n := nat_of_ascii c in
  ((9 <=? n) && (n <=? 13))%nat || (n =? 32)%nat || (n =? 160)%nat.

(** Characters that the regular-expression dot does not match. *)
Definition isLineTerminator (c : ascii) : bool :=
  let n := nat_of_ascii c in ((n =? 10) || (n =? 13))%nat.

Fixpoint trimStart (s : string) : string :=
  match s with
  | EmptyString => EmptyString
  | String c r => if isWhiteSpace c then trimStart r else s
  end.

Fixpoint trimEnd (s : string) : string :=
  match s with
  | EmptyString => EmptyString
  | String c r =>
      let r' := trimEnd r in
      if isWhiteSpace c && String.eqb r' EmptyString
      then EmptyString else String c r'
  end.

Definition trim (s : string) : string := trimEnd (trimStart s).

(** [s.split(sep)] for a one-character separator. *)
Fixpoint split (sep : ascii) (s : string) : list string :=
  match s with
  | EmptyString => [EmptyString]
  | String c r =>
      if Ascii.eqb c sep then EmptyString :: split sep r
      else match split sep r with
           | h :: t => String c h :: t
           | [] => [String c EmptyString]
           end
  end.

(** The shortest run of dot-matchable characters that is followed by a
    semicolon: what the lazy group of [/:(.*?);/] captures once the colon
    has matched. *)
Fixpoint lazyUntilSemicolon (s : string) : option string :=
  match s with
  | EmptyString => None
  | String c r =>
      if Ascii.eqb c ";"%char then Some EmptyString
      else if isLineTerminator c then None
      else option_map (String c) (lazyUntilSemicolon r)
  end.

(** [s.match(/:(.*?);/)?.[1]]: the capture of the leftmost match. *)
Fixpoint matchMimeType (s : string) : option string :=
  match s with
  | EmptyString => None
  | String c r =>
      if Ascii.eqb c ":"%char then
        match lazyUntilSemicolon r with
        | Some g => Some g
        | None => matchMimeType r
        end
      else matchMimeType r
  end.

(** [xs.join(sep)]. *)
Definition join (sep : string) (xs : list string) : string :=
  String.concat sep xs.

End Str.

(** ** Effects *)

(** The generation service's response, as far as the code inspects it. *)
Record InlineData := mkInlineData {
  inline_data : string;
  inline_mimeType : string
}.

Record Part := mkPart {
  inlineData : option InlineData;
  text : option string
}.

Record Content := mkContent { parts : option (list Part) }.
Record Candidate := mkCandidate { content : option Content }.
Record Response := mkResponse { candidates : option (list Candidate) }.

(** What a handler does, in the order it does it. *)
Inductive Effect :=
| SetOriginalRoomImage (v : option string)
| SetDisplayImage (v : option string)
| SetAvailableProducts (f : list CatalogEntry -> list CatalogEntry)
| SetPlacedProducts (f : list Product -> list Product)
| SetSelectedProductId (v : option Z)
| SetIsLoading (v : bool)
| SetIsProcessingProducts (v : bool)
| SetError (v : option string)
| SetPreviousState (v : option Snapshot)
| SetUserInstructions (v : string)
| SetInteractionState (v : option Interaction)
| AddWindowListeners
| RemoveWindowListeners
| ConsoleError (msg : string)
| GenerateContent (model : string) (data : option string)
                  (mimeType : string) (prompt : string)
| CanvasSize (w h : Z)
| DrawImage (image : string) (dx dy dw dh : Q).

Definition apply (e : Effect) (s : State) : State :=
  match e with
  | SetOriginalRoomImage v =>
      mkState v (displayImage s) (availableProducts s) (placedProducts s)
        (selectedProductId s) (isLoading s) (isProcessingProducts s)
        (error s) (previousState s) (userInstructions s) (interactionState s)
  | SetDisplayImage v =>
      mkState (originalRoomImage s) v (availableProducts s) (placedProducts s)
        (selectedProductId s) (isLoading s) (isProcessingProducts s)
        (error s) (previousState s) (userInstructions s) (interactionState s)
  | SetAvailableProducts f =>
      mkState (originalRoomImage s) (displayImage s)
        (f (availableProducts s)) (placedProducts s)
        (selectedProductId s) (isLoading s) (isProcessingProducts s)
        (error s) (previousState s) (userInstructions s) (interactionState s)
  | SetPlacedProducts f =>
      mkState (originalRoomImage s) (displayImage s)
        (availableProducts s) (f (placedProducts s))
        (selectedProductId s) (isLoading s) (isProcessingProducts s)
        (error s) (previousState s) (userInstructions s) (interactionState s)
  | SetSelectedProductId v =>
      mkState (originalRoomImage s) (displayImage s)
        (availableProducts s) (placedProducts s)
        v (isLoading s) (isProcessingProducts s)
        (error s) (previousState s) (userInstructions s) (interactionState s)
  | SetIsLoading v =>
      mkState (originalRoomImage s) (displayImage s)
        (availableProducts s) (placedProducts s)
        (selectedProductId s) v (isProcessingProducts s)
        (error s) (previousState s) (userInstructions s) (interactionState s)
  | SetIsProcessingProducts v =>
      mkState (originalRoomImage s) (displayImage s)
        (availableProducts s) (placedProducts s)
        (selectedProductId s) (isLoading s) v
        (error s) (previousState s) (userInstructions s) (interactionState s)
  | SetError v =>
      mkState (originalRoomImage s) (displayImage s)
        (availableProducts s) (placedProducts s)
        (selectedProductId s) (isLoading s) (isProcessingProducts s)
        v (previousState s) (userInstructions s) (interactionState s)
  | SetPreviousState v =>
      mkState (originalRoomImage s) (displayImage s)
        (availableProducts s) (placedProducts s)
        (selectedProductId s) (isLoading s) (isProcessingProducts s)
        (error s) v (userInstructions s) (interactionState s)
  | SetUserInstructions v =>
      mkState (originalRoomImage s) (displayImage s)
        (availableProducts s) (placedProducts s)
        (selectedProductId s) (isLoading s) (isProcessingProducts s)
        (error s) (previousState s) v (interactionState s)
  | SetInteractionState v =>
      mkState (originalRoomImage s) (displayImage s)
        (availableProducts s) (placedProducts s)
        (selectedProductId s) (isLoading s) (isProcessingProducts s)
        (error s) (previousState s) (userInstructions s) v
  | AddWindowListeners | RemoveWindowListeners | ConsoleError _
  | GenerateContent _ _ _ _ | CanvasSize _ _ | DrawImage _ _ _ _ _ => s
  end.

(** The state after a handler's effects, applied first to last. *)
Definition run (es : list Effect) (s : State) : State :=
  fold_left (fun acc e => apply e acc) es s.

(** Is this effect a request to the external service? *)
Definition isNetworkCall (e : Effect) : bool :=
  match e with GenerateContent _ _ _ _ => true | _ => false end.

(** Is this effect a message shown to the user ([setError] with a text)? *)
Definition isUserError (e : Effect) : bool :=
  match e with SetError (Some _) => true | _ => false end.

Definition networkCalls (es : list Effect) : nat :=
  List.length (filter isNetworkCall es).

Definition userErrors (es : list Effect) : nat :=
  List.length (filter isUserError es).

(** *** Code that may throw

    A computation performs effects and then either returns a value or
    throws; what it did before throwing stays done. *)
Module Exn.

Definition M (A : Type) : Type := (list Effect * option A)%type.

Definition ret {A} (a : A) : M A := ([], Some a).
Definition throw {A} : M A := ([], None).
Definition emit (e : Effect) : M unit := ([e], Some tt).

Definition bind {A B} (m : M A) (k : A -> M B) : M B :=
  match m with
  | (es, Some a) => let (es', r) := k a in (es ++ es', r)
  | (es, None) => (es, None)
  end.

(** [Promise.all]: the results in input order when every promise
    resolves, a rejection when one rejects. *)
Fixpoint all {A} (rs : list (option A)) : option (list A) :=
  match rs with
  | [] => Some []
  | r :: rest =>
      match r, all rest with
      | Some a, Some l => Some (a :: l)
      | _, _ => None
      end
  end.

End Exn.

Notation "x <- m ;; k" := (Exn.bind m (fun x => k))
  (at level 61, m at next level, right associativity).
Notation "m ;;; k" := (Exn.bind m (fun _ => k))
  (at level 61, right associativity).

Definition emitAll (es : list Effect) : Exn.M unit := (es, Some tt).

(** [await Promise.all(xs.map(f))]: every callback runs up to its request,
    in input order; the results are joined by [Exn.all]. *)
Definition promiseAll {A} (ms : list (Exn.M A)) : Exn.M (list A) :=
  (flat_map fst ms, Exn.all (map snd ms)).

(** [try { body } catch { handler } finally { finalizer }]. *)
Definition tryCatchFinally (body : Exn.M unit)
    (handler finalizer : list Effect) : list Effect :=
  match body with
  | (es, Some _) => es ++ finalizer
  | (es, None) => es ++ handler ++ finalizer
  end.

(** ** Room and catalog *)

Local Open Scope string_scope.

(** [handleRoomUpload]; [urls[0]] is [undefined] on an empty array. *)
Definition handleRoomUpload (urls : list string) : list Effect :=
  [ SetOriginalRoomImage (nth_error urls 0);
    SetDisplayImage (nth_error urls 0);
    SetPlacedProducts (fun _ => []) ].

Definition describePrompt : string :=
  "Describe this product in a short phrase for an interior design app. For example: 'a modern yellow armchair' or 'a rustic wooden coffee table'. Be concise and descriptive. Do not add any preamble like 'This is' or quotes.".

(** The description service: the text of the response for the given image
    bytes and mime type, or [None] when the request rejects or the response
    carries no text. *)
Definition DescriptionService : Type := string -> string -> option string.

(** The callback of [urls.map] in [handleProductUpload]. *)
Definition describeProduct (service : DescriptionService) (url : string)
  : Exn.M CatalogEntry :=
  let base64Data := nth_error (Str.split ","%char url) 1 in
  let mimeType := Str.matchMimeType url in
  match base64Data, mimeType with
  | Some b, Some m =>
      if negb (truthy (Some b)) || negb (truthy (Some m)) then
        Exn.emit (ConsoleError "Invalid data URL for product image.") ;;;
        Exn.ret (mkEntry url "a product")
      else
        Exn.emit (GenerateContent "gemini-2.5-flash" (Some b) m describePrompt) ;;;
        match service b m with
        | Some response_text => Exn.ret (mkEntry url (Str.trim response_text))
        | None => Exn.throw
        end
  | _, _ =>
      Exn.emit (ConsoleError "Invalid data URL for product image.") ;;;
      Exn.ret (mkEntry url "a product")
  end.

Definition productUploadError : string :=
  "Could not generate product descriptions. Please try again.".

Definition handleProductUpload (service : DescriptionService)
    (urls : list string) : list Effect :=
  ([ SetIsProcessingProducts true; SetError None ] ++
  tryCatchFinally
    (newProducts <- promiseAll (map (describeProduct service) urls) ;;
     Exn.emit (SetAvailableProducts (fun prev => (prev ++ newProducts)%list)))
    [ ConsoleError "Failed to process products:";
      SetError (Some productUploadError) ]
    [ SetIsProcessingProducts false ])%list.

Local Close Scope string_scope.

(** ** Placements *)

(** A pointer event, as far as the handlers read it. *)
Record PointerEvent := mkPointer { clientX : Q; clientY : Q }.

(** [getBoundingClientRect()] of the workspace. *)
Record Rect := mkRect { left : Q; top : Q }.

(** The object literal built in [img.onload] of [handleDrop]. *)
Definition newProduct (e : PointerEvent) (workspaceRect : Rect)
    (src description : string) (img_width img_height : Z) (now : Z)
  : Product :=
  let aspectRatio := Num.ratio img_width img_height in
  {| id := now;
     src := src;
     description := description;
     x := clientX e - left workspaceRect - 75;
     y := clientY e - top workspaceRect - (75 / aspectRatio) / 2;
     width := 150;
     height := 150 / aspectRatio;
     aspectRatio := aspectRatio |}.

(** [handleDrop].  [data] is the parsed drag payload [{ src, description }]
    ([None] when the transfer carries none); [loaded] is the size of the
    image when its [onload] fires ([None] when it never does); [now] is the
    reading of [Date.now()] inside [onload]. *)
Definition handleDrop (e : PointerEvent) (data : option (string * string))
    (workspaceRect : option Rect) (loaded : option (Z * Z)) (now : Z)
  : list Effect :=
  match data with
  | None => []
  | Some (src, description) =>
      match workspaceRect with
      | Some rect =>
          if truthy (Some src) then
            match loaded with
            | Some (img_width, img_height) =>
                let p := newProduct e rect src description
                           img_width img_height now in
                [ SetPlacedProducts (fun prev => prev ++ [p]);
                  SetSelectedProductId (Some (id p)) ]
            | None => []
            end
          else []
      | None => []
      end
  end.

(** [handleMouseDown]. *)
Definition handleMouseDown (e : PointerEvent) (pid : Z)
    (ty : InteractionType) (workspaceMounted : bool)
    (placed : list Product) : list Effect :=
  SetSelectedProductId (Some pid) ::
  match find (fun p => Z.eqb (id p) pid) placed with
  | Some product =>
      if workspaceMounted then
        [ SetInteractionState (Some
            {| type := Some ty;
               productId := pid;
               startX := clientX e;
               startY := clientY e;
               startLeft := x product;
               startTop := y product;
               startWidth := width product;
               startHeight := height product |});
          AddWindowListeners ]
      else []
  | None => []
  end.

(** [{ ...p, x: startLeft + dx, y: startTop + dy }]. *)
Definition moved (i : Interaction) (dx dy : Q) (p : Product) : Product :=
  {| id := id p; src := src p;
     x := startLeft i + dx; y := startTop i + dy;
     width := width p; height := height p;
     aspectRatio := aspectRatio p; description := description p |}.

(** The object built by the resize branch. *)
Definition resized (i : Interaction) (dx : Q) (p : Product) : Product :=
  let newWidth := startWidth i + dx in
  let newHeight := newWidth / aspectRatio p in
  {| id := id p; src := src p; x := x p; y := y p;
     width := if Num.gtb newWidth 20 then newWidth else 20;
     height := if Num.gtb newHeight (20 / aspectRatio p)
               then newHeight else 20 / aspectRatio p;
     aspectRatio := aspectRatio p; description := description p |}.

(** The callback of [prev.map] in [handleMouseMove]. *)
Definition dragged (i : Interaction) (dx dy : Q) (p : Product) : Product :=
  if Z.eqb (id p) (productId i) then
    match type i with
    | Some Move => moved i dx dy p
    | Some Resize => resized i dx p
    | None => p
    end
  else p.

(** [handleMouseMove]; [current] is [interactionState.current]. *)
Definition handleMouseMove (e : PointerEvent) (current : option Interaction)
  : list Effect :=
  match current with
  | None => []
  | Some i =>
      let dx := clientX e - startX i in
      let dy := clientY e - startY i in
      [ SetPlacedProducts (map (dragged i dx dy)) ]
  end.

Definition handleMouseUp : list Effect :=
  [ SetInteractionState None; RemoveWindowListeners ].

Definition handleWorkspaceClick : list Effect :=
  [ SetSelectedProductId None ].

(** ** Reset and undo *)

Definition handleReset (s : State) : list Effect :=
  [ SetDisplayImage (originalRoomImage s);
    SetPlacedProducts (fun _ => []);
    SetError None;
    SetPreviousState None ].

Definition handleUndo (s : State) : list Effect :=
  match previousState s with
  | Some previous =>
      [ SetDisplayImage (snap_displayImage previous);
        SetPlacedProducts (fun _ => snap_placedProducts previous);
        SetPreviousState None ]
  | None => []
  end.

Definition isSome {A} (o : option A) : bool :=
  match o with Some _ => true | None => false end.

(** The Undo button is rendered when
    [previousState && placedProducts.length === 0 && !isLoading]. *)
Definition undoOffered (s : State) : bool :=
  isSome (previousState s)
  && Nat.eqb (List.length (placedProducts s)) 0
  && negb (isLoading s).

(** The Reset button is rendered when [originalRoomImage] is truthy. *)
Definition resetOffered (s : State) : bool := truthy (originalRoomImage s).

(** The Harmonize button is rendered when [placedProducts.length > 0] and is
    disabled while [isLoading]. *)
Definition harmonizeEnabled (s : State) : bool :=
  Nat.ltb 0 (List.length (placedProducts s)) && negb (isLoading s).

(** ** Composite and harmonize *)

(** The room [<img>] element behind [imageRef.current]. *)
Record BaseImage := mkBaseImage {
  naturalWidth : Z;
  naturalHeight : Z;
  clientWidth : Z;
  clientHeight : Z
}.

(** What [handleHarmonize] obtains from the browser and from the generation
    service. *)
Record HarmonizeEnv := mkHarmonizeEnv {
  (** [canvas.getContext('2d')] is not [null] *)
  canvasContext : bool;
  (** [imageRef.current] *)
  imageRef : option BaseImage;
  (** does the image with this source fire [onload] (rather than [onerror])? *)
  imageLoads : string -> bool;
  (** [canvas.toDataURL('image/jpeg')] after the given canvas operations *)
  toDataURL : list Effect -> string;
  (** the response to the request with this image data and prompt, or [None]
      when the request rejects *)
  generateImage : option string -> string -> option Response
}.

Local Open Scope string_scope.

Definition harmonizePreconditionError : string :=
  "Please add a product to the room before harmonizing.".

Definition harmonizeError : string :=
  "Sorry, we couldn't harmonize your image. Please try again.".

Definition promptText (placed : list Product) (instructions : string)
  : string :=
  let productDescriptions := Str.join ", " (map description placed) in
  "Your task is to seamlessly integrate the following product(s) into the provided room image: "
  ++ productDescriptions
  ++ ". Your main goal is to make the products look natural by adjusting lighting, shadows, and colors. Preserve all other details of the original image. Do not add any products that the user did not place."
  ++ (if negb (String.eqb (Str.trim instructions) EmptyString) then
        Str.newline ++ Str.newline ++ "IMPORTANT USER INSTRUCTIONS: "
        ++ Str.dquote ++ Str.trim instructions ++ Str.dquote
        ++ ". You MUST follow these instructions. This may require you to change the orientation or perspective of the product(s) significantly. For example, if the user asks to make a sofa flush against the back wall, you must rotate it to face forward and align its perspective with that wall. The size and general position provided by the user should be respected as much as possible while fulfilling the instruction."
      else
        Str.newline ++ Str.newline
        ++ "It is absolutely critical that you DO NOT change the size, position, or aspect ratio of the added product(s). The products are placed exactly where the user wants them. Your only job is to adjust lighting, shadows, and colors to make the products look like they naturally belong in the room. You may only make very subtle adjustments to the perspective to better align the product with the scene if necessary.").

(** The promise built for one placement: it resolves to the loaded image
    (named by its source) or rejects. *)
Definition loadProductImage (env : HarmonizeEnv) (product : Product)
  : Exn.M string :=
  if imageLoads env (src product) then Exn.ret (src product) else Exn.throw.

Local Close Scope string_scope.

(** The [ctx.drawImage] call for one placement. *)
Definition drawProduct (scaleX scaleY : Q) (productImg : string)
    (product : Product) : Effect :=
  DrawImage productImg (x product * scaleX) (y product * scaleY)
            (width product * scaleX) (height product * scaleY).

(** [loadedProductImages.forEach((productImg, index) => ...)], from [index]
    on; reading a field of [placedProducts[index]] throws when the index is
    out of range. *)
Fixpoint drawLoaded (scaleX scaleY : Q) (placed : list Product)
    (index : nat) (loadedProductImages : list string) : Exn.M unit :=
  match loadedProductImages with
  | [] => Exn.ret tt
  | productImg :: rest =>
      match nth_error placed index with
      | Some product =>
          Exn.emit (drawProduct scaleX scaleY productImg product) ;;;
          drawLoaded scaleX scaleY placed (S index) rest
      | None => Exn.throw
      end
  end.

(** Lines 249-280: the canvas is sized to the room image's natural size,
    the room image is drawn, every placement image is loaded, then each is
    drawn. *)
Definition buildComposite (env : HarmonizeEnv) (roomImage : string)
    (placed : list Product) : Exn.M unit :=
  match (if canvasContext env then imageRef env else None) with
  | None => Exn.throw
  | Some baseImage =>
      let nW := naturalWidth baseImage in
      let nH := naturalHeight baseImage in
      Exn.emit (CanvasSize nW nH) ;;;
      Exn.emit (DrawImage roomImage 0 0 (inject_Z nW) (inject_Z nH)) ;;;
      let scaleX := Num.ratio nW (clientWidth baseImage) in
      let scaleY := Num.ratio nH (clientHeight baseImage) in
      loadedProductImages <- promiseAll (map (loadProductImage env) placed) ;;
      drawLoaded scaleX scaleY placed 0 loadedProductImages
  end.

(** [response.candidates?.[0]?.content?.parts.find(p => p.inlineData)];
    calling [find] on a missing [parts] throws. *)
Definition findImagePart (response : Response) : Exn.M (option Part) :=
  match candidates response with
  | None => Exn.ret None
  | Some cs =>
      match nth_error cs 0 with
      | None => Exn.ret None
      | Some c =>
          match content c with
          | None => Exn.ret None
          | Some ct =>
              match parts ct with
              | None => Exn.throw
              | Some ps => Exn.ret (find (fun p => isSome (inlineData p)) ps)
              end
          end
      end
  end.

Definition dataUrl (d : InlineData) : string :=
  ("data:" ++ inline_mimeType d ++ ";base64," ++ inline_data d)%string.

(** The [try] block of [handleHarmonize]. *)
Definition harmonizeBody (env : HarmonizeEnv) (roomImage : string)
    (placed : list Product) (instructions : string) : Exn.M unit :=
  let composite := buildComposite env roomImage placed in
  composite ;;;
  let compositeImageData :=
    nth_error (Str.split ","%char (toDataURL env (fst composite))) 1 in
  let prompt := promptText placed instructions in
  Exn.emit (GenerateContent "gemini-2.5-flash-image-preview"%string
              compositeImageData "image/jpeg"%string prompt) ;;;
  match generateImage env compositeImageData prompt with
  | None => Exn.throw
  | Some response =>
      imagePart <- findImagePart response ;;
      match imagePart with
      | Some p =>
          match inlineData p with
          | Some d =>
              Exn.emit (SetDisplayImage (Some (dataUrl d))) ;;;
              Exn.emit (SetPlacedProducts (fun _ => []))
          | None => Exn.throw
          end
      | None => Exn.throw
      end
  end.

(** [handleHarmonize], reading the state of the render it was created in. *)
Definition handleHarmonize (env : HarmonizeEnv) (s : State) : list Effect :=
  match displayImage s with
  | Some roomImage =>
      if negb (truthy (displayImage s))
         || Nat.eqb (List.length (placedProducts s)) 0
      then [ SetError (Some harmonizePreconditionError) ]
      else
        [ SetPreviousState
            (Some (mkSnapshot (displayImage s) (placedProducts s)));
          SetIsLoading true;
          SetError None ] ++
        tryCatchFinally
          (harmonizeBody env roomImage (placedProducts s)
             (userInstructions s))
          [ ConsoleError "Harmonization failed:"%string;
            SetError (Some harmonizeError) ]
          [ SetIsLoading false ]
  | None => [ SetError (Some harmonizePreconditionError) ]
  end.

(** Did the call get past the guard, and did its [try] block then throw? *)
Definition harmonizeRejected (s : State) : bool :=
  negb (truthy (displayImage s))
  || Nat.eqb (List.length (placedProducts s)) 0.

Definition harmonizeThrows (env : HarmonizeEnv) (s : State) : bool :=
  match displayImage s with
  | Some roomImage =>
      negb (harmonizeRejected s)
      && negb (isSome (snd (harmonizeBody env roomImage (placedProducts s)
                              (userInstructions s))))
  | None => false
  end.

(** *** The canvas

    [drawImage] paints a rectangle; a point shows the image of the last draw
    call whose rectangle contains it (sources taken as opaque). *)

Definition inRect (dx dy dw dh : Q) (pt : Q * Q) : bool :=
  Qle_bool dx (fst pt) && Num.gtb (dx + dw) (fst pt)
  && Qle_bool dy (snd pt) && Num.gtb (dy + dh) (snd pt).

Definition paint (shown : option string) (e : Effect) (pt : Q * Q)
  : option string :=
  match e with
  | DrawImage image dx dy dw dh =>
      if inRect dx dy dw dh pt then Some image else shown
  | _ => shown
  end.

(** The image visible at [pt] after the canvas operations [es]. *)
Definition visibleAt (es : list Effect) (pt : Q * Q) : option string :=
  fold_left (fun shown e => paint shown e pt) es None.

(** Does the scaled rectangle of a placement contain the point? *)
Definition placementCovers (scaleX scaleY : Q) (p : Product) (pt : Q * Q)
  : bool :=
  inRect (x p * scaleX) (y p * scaleY)
         (width p * scaleX) (height p * scaleY) pt.

(** ** The session *)

(** What can happen to the page.  A click carries no data; whether its
    handler runs depends on whether the button is rendered and enabled. *)
Inductive Event :=
| RoomUploaded (urls : list string)
| ProductsUploaded (service : DescriptionService) (urls : list string)
| Dropped (e : PointerEvent) (data : option (string * string))
          (workspaceRect : option Rect) (loaded : option (Z * Z)) (now : Z)
| MousePressed (e : PointerEvent) (pid : Z) (ty : InteractionType)
               (workspaceMounted : bool)
| MouseMoved (e : PointerEvent)
| MouseReleased
| WorkspaceClicked
| InstructionsTyped (v : string)
| ResetClicked
| UndoClicked
| HarmonizeClicked (env : HarmonizeEnv).

Definition handle (ev : Event) (s : State) : list Effect :=
  match ev with
  | RoomUploaded urls => handleRoomUpload urls
  | ProductsUploaded service urls =>
      if truthy (originalRoomImage s) && negb (isProcessingProducts s)
      then handleProductUpload service urls else []
  | Dropped e data rect loaded now => handleDrop e data rect loaded now
  | MousePressed e pid ty mounted =>
      handleMouseDown e pid ty mounted (placedProducts s)
  | MouseMoved e => handleMouseMove e (interactionState s)
  | MouseReleased => handleMouseUp
  | WorkspaceClicked => handleWorkspaceClick
  | InstructionsTyped v => [ SetUserInstructions v ]
  | ResetClicked => if resetOffered s then handleReset s else []
  | UndoClicked => if undoOffered s then handleUndo s else []
  | HarmonizeClicked env =>
      if harmonizeEnabled s then handleHarmonize env s else []
  end.

Definition step (s : State) (ev : Event) : State := run (handle ev s) s.

Definition session (evs : list Event) : State :=
  fold_left step evs initialState.

(** The reading of [Date.now()] taken by an event, when it takes one: a
    drop whose image loads. *)
Definition clockReading (ev : Event) : option Z :=
  match ev with
  | Dropped e data rect loaded now =>
      match handleDrop e data rect loaded now with
      | [] => None
      | _ => Some now
      end
  | _ => None
  end.

Fixpoint clockReadings (evs : list Event) : list Z :=
  match evs with
  | [] => []
  | ev :: rest =>
      match clockReading ev with
      | Some t => t :: clockReadings rest
      | None => clockReadings rest
      end
  end.

(** The next reading is at least [bound], and later readings are strictly
    later. *)
Fixpoint increasingFrom (bound : Z) (ts : list Z) : Prop :=
  match ts with
  | [] => True
  | t :: rest => (bound <= t)%Z /\ increasingFrom (t + 1) rest
  end.

(** Strictly increasing ids, all below [bound]. *)
Definition idsBelow (bound : Z) (ps : list Product) : Prop :=
  StronglySorted Z.lt (map id ps) /\ Forall (fun p => (id p < bound)%Z) ps.

(** Effects that leave every state cell alone. *)
Definition silent (e : Effect) : bool :=
  match e with
  | AddWindowListeners | RemoveWindowListeners | ConsoleError _
  | GenerateContent _ _ _ _ | CanvasSize _ _ | DrawImage _ _ _ _ _ => true
  | _ => false
  end.

(** Does the description request for this upload throw? *)
Definition requestThrows (service : DescriptionService) (url : string)
  : bool :=
  negb (isSome (snd (describeProduct service url))).

(** The image visible at [pt] once [es] are drawn over [shown]. *)
Definition paintAll (shown : option string) (es : list Effect) (pt : Q * Q)
  : option string :=
  fold_left (fun acc e => paint acc e pt) es shown.

(** The draw call the composite issues for a placement. *)
Definition placementDraw (scaleX scaleY : Q) (p : Product) : Effect :=
  DrawImage (src p) (x p * scaleX) (y p * scaleY)
            (width p * scaleX) (height p * scaleY).

(** Effects that write neither the placements nor the snapshot. *)
Definition keepsPlacements (e : Effect) : bool :=
  match e with
  | SetPlacedProducts _ | SetPreviousState _ => false
  | _ => true
  end.

(** The placements and the snapshot's placements carry strictly increasing
    ids, all below [bound]. *)
Definition ordered (bound : Z) (s : State) : Prop :=
  idsBelow bound (placedProducts s)
  /\ match previousState s with
     | Some snapshot => idsBelow bound (snap_placedProducts snapshot)
     | None => True
     end.

(** The clock bound after an event. *)
Definition nextBound (bound : Z) (ev : Event) : Z :=
  match clockReading ev with
  | Some t => (t + 1)%Z
  | None => bound
  end.

(** The shape every placement of a session has: a positive aspect ratio,
    a height that is the width divided by it, and a width of at least 20. *)
Definition wellProportioned (p : Product) : Prop :=
  0 < aspectRatio p
  /\ height p == width p / aspectRatio p
  /\ 20 <= width p.

Definition proportioned (s : State) : Prop :=
  Forall wellProportioned (placedProducts s)
  /\ match previousState s with
     | Some snapshot => Forall wellProportioned (snap_placedProducts snapshot)
     | None => True
     end.

(** A loaded image has a positive width and height. *)
Definition loadsWithSize (ev : Event) : Prop :=
  match ev with
  | Dropped _ _ _ (Some (w, h)) _ => (0 < w)%Z /\ (0 < h)%Z
  | _ => True
  end.

(** ** Sample data

    One room, one product of natural size 300x200 dropped at (100, 100) of
    the workspace at clock reading 1000. *)
Module Sample.

Local Open Scope string_scope.

Definition room : string := "data:image/png;base64,ROOM".
Definition chair : string := "data:image/png;base64,CHAIR".
Definition lamp : string := "data:image/jpeg;base64,LAMP".
Definition sofa : string := "data:image/png;base64,SOFA".

Definition origin : Rect := mkRect 0 0.
Definition at100 : PointerEvent := mkPointer 100 100.

Definition chairPlaced : Product :=
  newProduct at100 origin chair "a chair" 300 200 1000.

Definition lampPlaced : Product :=
  newProduct (mkPointer 120 90) origin lamp "a lamp" 100 200 2000.

Definition roomLoaded : State := run (handleRoomUpload [room]) initialState.

Definition chairDropped : State :=
  run (handleDrop at100 (Some (chair, "a chair")) (Some origin)
         (Some (300, 200)%Z) 1000) roomLoaded.

(** The resize handle of the chair grabbed at (175, 175). *)
Definition resizing : Interaction :=
  mkInteraction (Some Resize) 1000 175 175 25 75 150 100.


(** A room shown at half its natural size; every image loads; the
    service answers with one image part. *)
Definition harmonized : InlineData := mkInlineData "RESULT" "image/png".

Definition answer : Response :=
  mkResponse (Some [ mkCandidate (Some (mkContent (Some
    [ mkPart None (Some "Here is your room.");
      mkPart (Some harmonized) None ]))) ]).

Definition browser : HarmonizeEnv :=
  {| canvasContext := true;
     imageRef := Some (mkBaseImage 1200 800 600 400);
     imageLoads := fun _ => true;
     toDataURL := fun _ => "data:image/jpeg;base64,COMPOSITE";
     generateImage := fun _ _ => Some answer |}.

(** The same browser, the service answering with text only. *)
Definition textOnly : HarmonizeEnv :=
  {| canvasContext := true;
     imageRef := Some (mkBaseImage 1200 800 600 400);
     imageLoads := fun _ => true;
     toDataURL := fun _ => "data:image/jpeg;base64,COMPOSITE";
     generateImage := fun _ _ =>
       Some (mkResponse (Some [ mkCandidate (Some (mkContent (Some
         [ mkPart None (Some "I cannot do that.") ]))) ])) |}.

(** A description service that rejects the lamp. *)
Definition flaky : DescriptionService :=
  fun base64Data _ =>
    if String.eqb base64Data "LAMP" then None else Some " a wooden thing ".

(** Two drops whose images finish loading within one millisecond. *)
Definition sameMillisecond : list Event :=
  [ RoomUploaded [room];
    Dropped at100 (Some (chair, "a chair")) (Some origin)
            (Some (300, 200)%Z) 1000;
    Dropped (mkPointer 120 90) (Some (lamp, "a lamp")) (Some origin)
            (Some (100, 200)%Z) 1000 ].

(** The same drops one second apart. *)
Definition oneSecondApart : list Event :=
  [ RoomUploaded [room];
    Dropped at100 (Some (chair, "a chair")) (Some origin)
            (Some (300, 200)%Z) 1000;
    Dropped (mkPointer 120 90) (Some (lamp, "a lamp")) (Some origin)
            (Some (100, 200)%Z) 2000 ].

End Sample.

(** ** File selection *)

(** [handleFileChange] starts one [FileReader] per selected file; the
    readers finish in an order of their own.  A file is named here by the
    data URL its reader yields. *)
Module FileChange.

(** The closure shared by the [onload] callbacks, and the calls made to
    [setter] so far. *)
Record Progress := mkProgress {
  urls : list string;
  filesProcessed : nat;
  calls : list (list string)
}.

Definition start : Progress := mkProgress [] 0 [].

(** [reader.onload] of the file at [index]. *)
Definition onload (files : list string) (st : Progress) (index : nat)
  : Progress :=
  match nth_error files index with
  | Some result =>
      let pushed := urls st ++ [result] in
      let processed := S (filesProcessed st) in
      mkProgress pushed processed
        (if Nat.eqb processed (List.length files)
         then calls st ++ [pushed] else calls st)
  | None => st
  end.

(** The calls to [setter] once the readers listed in [completions] have
    finished, in that order. *)
Definition setterCalls (files : list string) (completions : list nat)
  : list (list string) :=
  calls (fold_left (onload files) completions start).

End FileChange.

(** [handleFileChange]; [files] is [e.target.files]. *)
Definition handleFileChange (files : option (list string))
    (setter : list string -> list Effect) (completions : list nat)
  : list Effect :=
  match files with
  | None => []
  | Some fs =>
      if Nat.eqb (List.length fs) 0 then []
      else flat_map setter (FileChange.setterCalls fs completions)
  end.

(** The file a reader index stands for. *)
Definition fileAt (files : list string) (index : nat) : string :=
  nth index files EmptyString.

(** ** The loading message *)

Definition loadingMessages : list string :=
  [ "Harmonizing your design..."%string;
    "Adjusting lighting and shadows..."%string;
    "Blending colors for a natural look..."%string;
    "Analyzing perspective..."%string;
    "Adding the finishing touches..."%string ].

(** [xs.indexOf(m)]: the first index holding [m], or -1. *)
Fixpoint indexOf (m : string) (xs : list string) : Z :=
  match xs with
  | [] => (-1)%Z
  | h :: t =>
      if String.eqb h m then 0%Z
      else let k := indexOf m t in
           if Z.eqb k (-1) then (-1)%Z else (k + 1)%Z
  end.

(** The updater passed to [setLoadingMessage] every 2500 ms. *)
Definition nextLoadingMessage (prev : string) : option string :=
  let currentIndex := indexOf prev loadingMessages in
  nth_error loadingMessages
    (Z.to_nat (Z.rem (currentIndex + 1)
                     (Z.of_nat (List.length loadingMessages)))).

(** [ticks] runs of the interval callback. *)
Fixpoint rotate (ticks : nat) (message : string) : option string :=
  match ticks with
  | O => Some message
  | S n =>
      match nextLoadingMessage message with
      | Some next => rotate n next
      | None => None
      end
  end.

(** ** Predicates on uploads and text *)

(** Does the upload pass the test [!base64Data || !mimeType]? *)
Definition wellFormedUrl (url : string) : bool :=
  match nth_error (Str.split ","%char url) 1, Str.matchMimeType url with
  | Some b, Some m => truthy (Some b) && truthy (Some m)
  | _, _ => false
  end.

Fixpoint allWhiteSpace (s : string) : bool :=
  match s with
  | EmptyString => true
  | String c r => Str.isWhiteSpace c && allWhiteSpace r
  end.

(** The character [c] does not occur in [s]. *)
Fixpoint without (c : ascii) (s : string) : bool :=
  match s with
  | EmptyString => true
  | String d r => negb (Ascii.eqb d c) && without c r
  end.

Fixpoint withoutLineTerminator (s : string) : bool :=
  match s with
  | EmptyString => true
  | String d r => negb (Str.isLineTerminator d) && withoutLineTerminator r
  end.

(** Effects of the catalog ingest: they write the catalog, the message and
    the processing flag only. *)
Definition catalogOnly (e : Effect) : bool :=
  match e with
  | SetAvailableProducts _ | SetError _ | SetIsProcessingProducts _ => true
  | _ => silent e
  end.

(** A snapshot is taken with a display image and at least one placement. *)
Definition snapshotUsable (s : State) : Prop :=
  match previousState s with
  | Some snapshot =>
      truthy (snap_displayImage snapshot) = true
      /\ snap_placedProducts snapshot <> []
  | None => True
  end.

(** More sample data. *)
Module Tour.

Local Open Scope string_scope.

Definition threeFiles : list string :=
  [Sample.chair; Sample.lamp; Sample.sofa].

(** The chair and the lamp placed, the lamp over a corner of the chair. *)
Definition twoPlaced : State := session Sample.oneSecondApart.

(** A browser in which the lamp image fails to load. *)
Definition lampBroken : HarmonizeEnv :=
  {| canvasContext := true;
     imageRef := Some (mkBaseImage 1200 800 600 400);
     imageLoads := fun source => negb (String.eqb source Sample.lamp);
     toDataURL := fun _ => "data:image/jpeg;base64,COMPOSITE";
     generateImage := fun _ _ => Some Sample.answer |}.

End Tour.

(** * Properties *)

(** ** Numbers *)

Lemma gtb_true (a b : Q) : Num.gtb a b = true <-> b < a.
Proof.
  unfold Num.gtb. rewrite negb_true_iff.
  destruct (Qle_bool a b) eqn:E.
  - apply Qle_bool_iff in E. split; [discriminate | intro H].
    exfalso. apply (Qlt_irrefl b). eapply Qlt_le_trans; eauto.
  - split; [intros _ | reflexivity].
    apply Qnot_le_lt. intro H. apply Qle_bool_iff in H. congruence.
Qed.

Lemma gtb_false (a b : Q) : Num.gtb a b = false <-> a <= b.
Proof.
  unfold Num.gtb. rewrite negb_false_iff. apply Qle_bool_iff.
Qed.

Lemma ratio_pos (w h : Z) : (0 < w)%Z -> (0 < h)%Z -> 0 < Num.ratio w h.
Proof.
  intros Hw Hh. unfold Num.ratio, Qdiv.
  apply Qmult_lt_0_compat.
  - change 0 with (inject_Z 0). rewrite <- Zlt_Qlt. exact Hw.
  - apply Qinv_lt_0_compat.
    change 0 with (inject_Z 0). rewrite <- Zlt_Qlt. exact Hh.
Qed.

(** ** Running effects *)

Lemma run_app (es1 es2 : list Effect) (s : State) :
  run (es1 ++ es2) s = run es2 (run es1 s).
Proof. unfold run. apply fold_left_app. Qed.

Lemma run_cons (e : Effect) (es : list Effect) (s : State) :
  run (e :: es) s = run es (apply e s).
Proof. reflexivity. Qed.

Lemma apply_silent (e : Effect) (s : State) : silent e = true -> apply e s = s.
Proof. destruct e, s; simpl; intro H; try discriminate; reflexivity. Qed.

Lemma run_silent (es : list Effect) (s : State) :
  forallb silent es = true -> run es s = s.
Proof.
  revert s. induction es as [|e es IH]; intros s H; [reflexivity|].
  simpl in H. apply andb_true_iff in H as [He Hes].
  rewrite run_cons, apply_silent by exact He. now apply IH.
Qed.

(** ** Resize *)

Section Resize.

Variable i : Interaction.
Variable dx : Q.
Variable p : Product.
Hypothesis ratio_positive : 0 < aspectRatio p.

Let newWidth := startWidth i + dx.

Lemma resized_width : width (resized i dx p) == Qmax newWidth 20.
Proof.
  unfold resized; simpl. fold newWidth.
  destruct (Num.gtb newWidth 20) eqn:E.
  - apply gtb_true in E. symmetry. apply Q.max_l. now apply Qlt_le_weak.
  - apply gtb_false in E. symmetry. now apply Q.max_r.
Qed.

Lemma resized_width_min : 20 <= width (resized i dx p).
Proof.
  unfold resized; simpl. fold newWidth.
  destruct (Num.gtb newWidth 20) eqn:E.
  - apply gtb_true in E. now apply Qlt_le_weak.
  - apply Qle_refl.
Qed.

Lemma resized_height_min :
  20 / aspectRatio p <= height (resized i dx p).
Proof.
  unfold resized; simpl. fold newWidth.
  destruct (Num.gtb (newWidth / aspectRatio p) (20 / aspectRatio p)) eqn:E.
  - apply gtb_true in E. now apply Qlt_le_weak.
  - apply Qle_refl.
Qed.

Lemma resized_height :
  height (resized i dx p) == width (resized i dx p) / aspectRatio p.
Proof using ratio_positive.
  assert (Hinv : 0 < / aspectRatio p) by now apply Qinv_lt_0_compat.
  unfold resized; simpl. fold newWidth. unfold Qdiv.
  destruct (Num.gtb newWidth 20) eqn:Ew;
    destruct (Num.gtb (newWidth * / aspectRatio p)
                      (20 * / aspectRatio p)) eqn:Eh;
    try reflexivity; exfalso.
  - apply gtb_true in Ew. apply gtb_false in Eh.
    apply <- (Qmult_lt_r 20 newWidth _ Hinv) in Ew.
    apply (Qlt_irrefl (20 * / aspectRatio p)).
    now apply Qlt_le_trans with (newWidth * / aspectRatio p).
  - apply gtb_false in Ew. apply gtb_true in Eh.
    apply -> (Qmult_lt_r 20 newWidth _ Hinv) in Eh.
    apply (Qlt_irrefl 20).
    now apply Qlt_le_trans with newWidth.
Qed.

End Resize.

Lemma nth_error_dragged (i : Interaction) (dx dy : Q) (prev : list Product)
    (n : nat) (p : Product) :
  nth_error prev n = Some p ->
  nth_error (map (dragged i dx dy) prev) n = Some (dragged i dx dy p).
Proof. intro H. now apply map_nth_error. Qed.

Lemma placed_after_move (e : PointerEvent) (i : Interaction) (s : State) :
  placedProducts (run (handleMouseMove e (Some i)) s)
  = map (dragged i (clientX e - startX i) (clientY e - startY i))
        (placedProducts s).
Proof. reflexivity. Qed.

(** C1. While a resize gesture is active, every pointer move gives the
    placement being resized (at whatever index it sits) the width
    [max (startWidth + deltaX, 20)] and the height [width / aspectRatio];
    hence its width is never below 20 and its height never below
    [20 / aspectRatio], however negative the delta.  The aspect ratio is the
    positive quotient of the image's width by its height. *)
Theorem resize_clamps_and_keeps_ratio
    (e : PointerEvent) (i : Interaction) (s : State)
    (n : nat) (p : Product) :
  type i = Some Resize ->
  nth_error (placedProducts s) n = Some p ->
  id p = productId i ->
  0 < aspectRatio p ->
  let deltaX := clientX e - startX i in
  exists p',
    nth_error (placedProducts (run (handleMouseMove e (Some i)) s)) n
      = Some p'
    /\ width p' == Qmax (startWidth i + deltaX) 20
    /\ height p' == width p' / aspectRatio p'
    /\ aspectRatio p' = aspectRatio p
    /\ ~ width p' < 20
    /\ ~ height p' < 20 / aspectRatio p'.
Proof.
  intros Hty Hn Hid Hpos deltaX.
  exists (resized i deltaX p).
  rewrite placed_after_move.
  rewrite (nth_error_dragged _ _ _ _ _ _ Hn).
  unfold dragged. rewrite Hid, Z.eqb_refl, Hty. fold deltaX.
  change (aspectRatio (resized i deltaX p)) with (aspectRatio p).
  split; [reflexivity|].
  split; [apply resized_width|].
  split; [now apply resized_height|].
  split; [reflexivity|].
  split; apply Qle_not_lt.
  - apply resized_width_min.
  - apply resized_height_min.
Qed.

Lemma resize_clamps_and_keeps_ratio_witness :
  let e := mkPointer (-825) 175 in
  (type Sample.resizing = Some Resize
   /\ nth_error (placedProducts Sample.chairDropped) 0
      = Some Sample.chairPlaced
   /\ id Sample.chairPlaced = productId Sample.resizing
   /\ 0 < aspectRatio Sample.chairPlaced)
  /\ exists p',
      nth_error
        (placedProducts
           (run (handleMouseMove e (Some Sample.resizing))
                Sample.chairDropped)) 0 = Some p'
      /\ width p' == Qmax (startWidth Sample.resizing
                           + (clientX e - startX Sample.resizing)) 20
      /\ height p' == width p' / aspectRatio p'
      /\ aspectRatio p' = aspectRatio Sample.chairPlaced
      /\ ~ width p' < 20
      /\ ~ height p' < 20 / aspectRatio p'.
Proof.
  intro e.
  assert (H1 : type Sample.resizing = Some Resize) by reflexivity.
  assert (H2 : nth_error (placedProducts Sample.chairDropped) 0
               = Some Sample.chairPlaced) by reflexivity.
  assert (H3 : id Sample.chairPlaced = productId Sample.resizing)
    by reflexivity.
  assert (H4 : 0 < aspectRatio Sample.chairPlaced) by reflexivity.
  split; [now repeat split|].
  exact (resize_clamps_and_keeps_ratio e Sample.resizing Sample.chairDropped
           0 Sample.chairPlaced H1 H2 H3 H4).
Defined.

(** ** Move *)







(** ** Create *)

(** What [handleDrop] builds, for every drop: the width is 150, the height
    is [150 / aspectRatio], the drop point is half the width to the right
    of the left edge, and a quarter of the height below the top edge. *)
Lemma newProduct_geometry (e : PointerEvent) (rect : Rect)
    (source text : string) (w h now : Z) :
  let p := newProduct e rect source text w h now in
  aspectRatio p = Num.ratio w h
  /\ width p = 150
  /\ height p = 150 / aspectRatio p
  /\ x p == (clientX e - left rect) - width p / 2
  /\ y p == (clientY e - top rect) - height p / 4.
Proof.
  simpl. repeat (split; [reflexivity|]).
  split.
  - setoid_replace (150 / 2) with 75 by reflexivity. reflexivity.
  - unfold Qdiv.
    setoid_replace (/ 2) with (1 # 2) by reflexivity.
    setoid_replace (/ 4) with (1 # 4) by reflexivity.
    ring.
Qed.

(** C8. A product of natural size 300x200 dropped at (100, 100): the
    placement gets aspect ratio 3/2, width 150, height 100 and
    [x = 100 - width / 2], but [y = 75], which is [100 - height / 4] and
    not [100 - height / 2]. *)
Theorem drop_is_not_centred_vertically :
  let p := Sample.chairPlaced in
  placedProducts Sample.chairDropped = [p]
  /\ aspectRatio p == 3 # 2
  /\ width p == 150
  /\ height p == 100
  /\ x p == 100 - width p / 2
  /\ y p == 75
  /\ ~ y p == 100 - height p / 2.
Proof.
  simpl. repeat (split; [reflexivity|]). discriminate.
Qed.

(** ** Composite *)

Section Composite.

Variable env : HarmonizeEnv.
Variables scaleX scaleY : Q.

Lemma loads_have_no_effects (placed : list Product) :
  flat_map fst (map (loadProductImage env) placed) = [].
Proof.
  induction placed as [|p ps IH]; [reflexivity|].
  simpl. rewrite IH. unfold loadProductImage.
  now destruct (imageLoads env (src p)).
Qed.

Lemma loads_all_resolve (placed : list Product) :
  forallb (fun p => imageLoads env (src p)) placed = true ->
  Exn.all (map snd (map (loadProductImage env) placed))
  = Some (map src placed).
Proof.
  induction placed as [|p ps IH]; intro H; [reflexivity|].
  simpl in H. apply andb_true_iff in H as [Hp Hps].
  simpl. rewrite (IH Hps). unfold loadProductImage. now rewrite Hp.
Qed.

(** The indexed loop pairs the k-th loaded image with the k-th
    placement. *)
Lemma drawLoaded_from (earlier later : list Product) :
  drawLoaded scaleX scaleY (earlier ++ later) (List.length earlier)
             (map src later)
  = (map (placementDraw scaleX scaleY) later, Some tt).
Proof.
  revert earlier. induction later as [|p ps IH]; intro earlier.
  - reflexivity.
  - simpl. rewrite nth_error_app2, Nat.sub_diag by apply Nat.le_refl.
    simpl.
    replace (earlier ++ p :: ps) with ((earlier ++ [p]) ++ ps)
      by now rewrite <- app_assoc.
    replace (S (List.length earlier)) with (List.length (earlier ++ [p]))
      by (rewrite length_app; simpl; lia).
    rewrite IH. reflexivity.
Qed.

Lemma paintAll_app (shown : option string) (es1 es2 : list Effect)
    (pt : Q * Q) :
  paintAll shown (es1 ++ es2) pt = paintAll (paintAll shown es1 pt) es2 pt.
Proof. unfold paintAll. apply fold_left_app. Qed.

(** Draws that miss the point leave it as it is. *)
Lemma paintAll_missed (shown : option string) (ps : list Product)
    (pt : Q * Q) :
  forallb (fun q => negb (placementCovers scaleX scaleY q pt)) ps = true ->
  paintAll shown (map (placementDraw scaleX scaleY) ps) pt = shown.
Proof.
  revert shown. induction ps as [|q qs IH]; intros shown H; [reflexivity|].
  simpl in H. apply andb_true_iff in H as [Hq Hqs].
  apply negb_true_iff in Hq. unfold placementCovers in Hq.
  unfold paintAll. simpl. rewrite Hq. now apply IH.
Qed.

(** The last placement to cover a point is the one seen there. *)
Lemma paintAll_last_cover (shown : option string)
    (earlier later : list Product) (p : Product) (pt : Q * Q) :
  placementCovers scaleX scaleY p pt = true ->
  forallb (fun q => negb (placementCovers scaleX scaleY q pt)) later
  = true ->
  paintAll shown
    (map (placementDraw scaleX scaleY) (earlier ++ p :: later)) pt
  = Some (src p).
Proof.
  intros Hp Hafter.
  rewrite map_app, paintAll_app. simpl map.
  change (map (placementDraw scaleX scaleY) (p :: later))
    with ([placementDraw scaleX scaleY p]
          ++ map (placementDraw scaleX scaleY) later).
  unfold paintAll at 1. simpl.
  unfold placementCovers in Hp. rewrite Hp.
  now apply paintAll_missed.
Qed.

End Composite.

(** C3. When the canvas is available and every placement image loads, the
    composite consists of the room image drawn at natural size followed by
    one draw call per placement, in the order of the collection, each at
    [(x * scaleX, y * scaleY)] with size [(width * scaleX, height * scaleY)]
    where [scaleX = naturalWidth / clientWidth] and
    [scaleY = naturalHeight / clientHeight]; so at a point covered by a
    placement and by none inserted after it, that placement's image is the
    one visible. *)
Theorem composite_draws_scaled_in_insertion_order
    (env : HarmonizeEnv) (base : BaseImage) (roomImage : string)
    (placed : list Product) :
  canvasContext env = true ->
  imageRef env = Some base ->
  forallb (fun p => imageLoads env (src p)) placed = true ->
  let scaleX := Num.ratio (naturalWidth base) (clientWidth base) in
  let scaleY := Num.ratio (naturalHeight base) (clientHeight base) in
  let composite := buildComposite env roomImage placed in
  snd composite = Some tt
  /\ fst composite
     = CanvasSize (naturalWidth base) (naturalHeight base)
       :: DrawImage roomImage 0 0 (inject_Z (naturalWidth base))
                    (inject_Z (naturalHeight base))
       :: map (fun p => DrawImage (src p) (x p * scaleX) (y p * scaleY)
                          (width p * scaleX) (height p * scaleY)) placed
  /\ forall earlier p later pt,
       placed = earlier ++ p :: later ->
       placementCovers scaleX scaleY p pt = true ->
       forallb (fun q => negb (placementCovers scaleX scaleY q pt)) later
       = true ->
       visibleAt (fst composite) pt = Some (src p).
Proof.
  intros Hctx Href Hloads scaleX scaleY composite.
  assert (E : composite
              = (CanvasSize (naturalWidth base) (naturalHeight base)
                 :: DrawImage roomImage 0 0 (inject_Z (naturalWidth base))
                              (inject_Z (naturalHeight base))
                 :: map (placementDraw scaleX scaleY) placed, Some tt)).
  { subst composite. unfold buildComposite. rewrite Hctx, Href.
    unfold promiseAll.
    rewrite loads_have_no_effects, (loads_all_resolve _ _ Hloads).
    fold scaleX scaleY.
    pose proof (drawLoaded_from scaleX scaleY [] placed) as D.
    simpl in D. simpl. rewrite D. reflexivity. }
  rewrite E. simpl fst. simpl snd.
  split; [reflexivity|]. split; [reflexivity|].
  intros earlier p later pt -> Hp Hafter.
  unfold visibleAt.
  change (CanvasSize (naturalWidth base) (naturalHeight base)
          :: DrawImage roomImage 0 0 (inject_Z (naturalWidth base))
                       (inject_Z (naturalHeight base))
          :: map (placementDraw scaleX scaleY) (earlier ++ p :: later))
    with ([CanvasSize (naturalWidth base) (naturalHeight base);
           DrawImage roomImage 0 0 (inject_Z (naturalWidth base))
                     (inject_Z (naturalHeight base))]
          ++ map (placementDraw scaleX scaleY) (earlier ++ p :: later)).
  rewrite fold_left_app.
  now apply (paintAll_last_cover scaleX scaleY).
Qed.

Lemma composite_draws_scaled_in_insertion_order_witness :
  let placed := [Sample.chairPlaced; Sample.lampPlaced] in
  let composite := buildComposite Sample.browser Sample.room placed in
  let pt := (160, 200) in
  (canvasContext Sample.browser = true
   /\ imageRef Sample.browser = Some (mkBaseImage 1200 800 600 400)
   /\ forallb (fun p => imageLoads Sample.browser (src p)) placed = true
   /\ placementCovers 2 2 Sample.chairPlaced pt = true
   /\ placementCovers 2 2 Sample.lampPlaced pt = true)
  /\ snd composite = Some tt
  /\ visibleAt (fst composite) pt = Some Sample.lamp.
Proof.
  intros placed composite pt.
  assert (H1 : canvasContext Sample.browser = true) by reflexivity.
  assert (H2 : imageRef Sample.browser = Some (mkBaseImage 1200 800 600 400))
    by reflexivity.
  assert (H3 : forallb (fun p => imageLoads Sample.browser (src p)) placed
               = true) by reflexivity.
  split; [now repeat split|].
  destruct (composite_draws_scaled_in_insertion_order
              Sample.browser _ Sample.room placed H1 H2 H3)
    as (Hr & _ & Hv).
  split; [exact Hr|].
  apply (Hv [Sample.chairPlaced] Sample.lampPlaced [] pt);
    reflexivity.
Defined.

(** ** The exception monad *)

Lemma bind_fst {A B} (m : Exn.M A) (k : A -> Exn.M B) :
  fst (Exn.bind m k)
  = fst m ++ match snd m with Some a => fst (k a) | None => [] end.
Proof.
  destruct m as [es [a|]]; simpl.
  - now destruct (k a).
  - now rewrite app_nil_r.
Qed.

Lemma silent_app (es1 es2 : list Effect) :
  forallb silent (es1 ++ es2) = forallb silent es1 && forallb silent es2.
Proof. apply forallb_app. Qed.

Lemma silent_no_user_error (es : list Effect) :
  forallb silent es = true -> filter isUserError es = [].
Proof.
  induction es as [|e es IH]; intro H; [reflexivity|].
  simpl in H. apply andb_true_iff in H as [He Hes].
  simpl. rewrite (IH Hes).
  now destruct e as [| | | | | | |[?|]| | | | | | | | |].
Qed.

(** ** Catalog ingest *)

Section Ingest.

Variable service : DescriptionService.

Lemma describeProduct_silent (url : string) :
  forallb silent (fst (describeProduct service url)) = true.
Proof.
  unfold describeProduct.
  destruct (nth_error (Str.split ","%char url) 1) as [b|];
    destruct (Str.matchMimeType url) as [m|]; try reflexivity.
  destruct (negb (truthy (Some b)) || negb (truthy (Some m)));
    [reflexivity|].
  simpl. now destruct (service b m).
Qed.

Lemma describeProduct_src (url : string) (entry : CatalogEntry) :
  snd (describeProduct service url) = Some entry -> entry_src entry = url.
Proof.
  unfold describeProduct.
  destruct (nth_error (Str.split ","%char url) 1) as [b|];
    destruct (Str.matchMimeType url) as [m|];
    try (simpl; intro H; injection H as <-; reflexivity).
  destruct (negb (truthy (Some b)) || negb (truthy (Some m)));
    [simpl; intro H; injection H as <-; reflexivity|].
  simpl. destruct (service b m); simpl; intro H;
    [injection H as <-; reflexivity | discriminate].
Qed.

Lemma requests_silent (urls : list string) :
  forallb silent (flat_map fst (map (describeProduct service) urls))
  = true.
Proof.
  induction urls as [|u us IH]; [reflexivity|].
  simpl. rewrite silent_app, IH, describeProduct_silent. reflexivity.
Qed.

(** One rejection rejects the batch. *)
Lemma batch_rejects (urls : list string) :
  existsb (requestThrows service) urls = true ->
  Exn.all (map snd (map (describeProduct service) urls)) = None.
Proof.
  induction urls as [|u us IH]; intro H; [discriminate|].
  simpl in H. simpl. apply orb_true_iff in H as [Hu|Hus].
  - unfold requestThrows in Hu.
    now destruct (snd (describeProduct service u)).
  - rewrite (IH Hus). now destruct (snd (describeProduct service u)).
Qed.

(** With no rejection the batch resolves to one entry per upload, in
    the order of the uploads. *)
Lemma batch_resolves (urls : list string) :
  existsb (requestThrows service) urls = false ->
  exists newProducts,
    Exn.all (map snd (map (describeProduct service) urls))
    = Some newProducts
    /\ map entry_src newProducts = urls.
Proof.
  induction urls as [|u us IH]; intro H.
  - exists []. now split.
  - simpl in H. apply orb_false_iff in H as [Hu Hus].
    destruct (IH Hus) as (l & Hl & Hsrc).
    unfold requestThrows in Hu.
    destruct (snd (describeProduct service u)) as [entry|] eqn:E;
      [|discriminate].
    exists (entry :: l). simpl. rewrite E, Hl. split; [reflexivity|].
    simpl. now rewrite (describeProduct_src u entry E), Hsrc.
Qed.

End Ingest.

(** C4. A batch of uploads either fails as a whole or is appended as a
    whole: when some description request throws, the catalog is left as it
    was and exactly one message is shown to the user; when none throws, one
    entry per upload is appended, in the order of the uploads, and no
    message is shown. *)
Theorem ingest_is_all_or_nothing
    (service : DescriptionService) (urls : list string) (s : State) :
  let es := handleProductUpload service urls in
  let s' := run es s in
  (existsb (requestThrows service) urls = true ->
     availableProducts s' = availableProducts s
     /\ error s' = Some productUploadError
     /\ userErrors es = 1%nat)
  /\ (existsb (requestThrows service) urls = false ->
      exists newProducts,
        map entry_src newProducts = urls
        /\ availableProducts s' = availableProducts s ++ newProducts
        /\ error s' = None
        /\ userErrors es = 0%nat).
Proof.
  intros es s'. subst s' es. unfold handleProductUpload, promiseAll.
  pose proof (requests_silent service urls) as Hsilent.
  set (requests := flat_map fst (map (describeProduct service) urls)) in *.
  split; intro H.
  - rewrite (batch_rejects service urls H). simpl.
    unfold userErrors.
    rewrite run_app, (run_silent requests _ Hsilent).
    simpl filter.
    rewrite filter_app, (silent_no_user_error requests Hsilent).
    now repeat split.
  - destruct (batch_resolves service urls H) as (newProducts & Hall & Hsrc).
    exists newProducts. rewrite Hall. simpl.
    unfold userErrors.
    rewrite !run_app, (run_silent requests _ Hsilent).
    simpl filter.
    rewrite !filter_app, (silent_no_user_error requests Hsilent).
    now repeat split.
Qed.

Lemma ingest_is_all_or_nothing_witness :
  let urls := [Sample.chair; Sample.lamp; Sample.sofa] in
  let es := handleProductUpload Sample.flaky urls in
  let s' := run es Sample.roomLoaded in
  existsb (requestThrows Sample.flaky) urls = true
  /\ availableProducts s' = availableProducts Sample.roomLoaded
  /\ error s' = Some productUploadError
  /\ userErrors es = 1%nat.
Proof.
  intros urls es s'.
  assert (H : existsb (requestThrows Sample.flaky) urls = true)
    by reflexivity.
  split; [exact H|].
  exact (proj1 (ingest_is_all_or_nothing Sample.flaky urls Sample.roomLoaded)
           H).
Defined.

(** ** Harmonize *)

Section Harmonize.

Variable env : HarmonizeEnv.

Lemma drawLoaded_silent (scaleX scaleY : Q) (placed : list Product)
    (loaded : list string) (index : nat) :
  forallb silent (fst (drawLoaded scaleX scaleY placed index loaded))
  = true.
Proof.
  revert index. induction loaded as [|img rest IH]; intro index;
    [reflexivity|].
  simpl. destruct (nth_error placed index); [|reflexivity].
  specialize (IH (S index)).
  destruct (drawLoaded scaleX scaleY placed (S index) rest) as [es r].
  exact IH.
Qed.

Lemma buildComposite_silent (roomImage : string) (placed : list Product) :
  forallb silent (fst (buildComposite env roomImage placed)) = true.
Proof.
  unfold buildComposite.
  destruct (if canvasContext env then imageRef env else None);
    [|reflexivity].
  rewrite !bind_fst. unfold promiseAll, Exn.emit. cbn [fst snd].
  rewrite loads_have_no_effects. cbn [app forallb silent andb].
  destruct (Exn.all (map snd (map (loadProductImage env) placed)));
    [apply drawLoaded_silent | reflexivity].
Qed.

Lemma findImagePart_no_effects (response : Response) :
  fst (findImagePart response) = [].
Proof.
  unfold findImagePart.
  destruct (candidates response) as [cs|]; [|reflexivity].
  destruct (nth_error cs 0) as [c|]; [|reflexivity].
  destruct (content c) as [ct|]; [|reflexivity].
  now destruct (parts ct).
Qed.

(** The [try] block either throws having touched no state cell, or
    ends by replacing the display image and clearing the placements. *)
Lemma harmonizeBody_cases (roomImage : string) (placed : list Product)
    (instructions : string) :
  let body := harmonizeBody env roomImage placed instructions in
  (snd body = None /\ forallb silent (fst body) = true)
  \/ exists es d,
       forallb silent es = true
       /\ body = (es ++ [ SetDisplayImage (Some (dataUrl d));
                          SetPlacedProducts (fun _ => []) ], Some tt).
Proof.
  intro body. subst body. unfold harmonizeBody.
  pose proof (buildComposite_silent roomImage placed) as Hc.
  destruct (buildComposite env roomImage placed) as [ces [[]|]];
    simpl in Hc; [|left; simpl; now split].
  simpl fst.
  set (request := GenerateContent _ _ _ _).
  set (answer := generateImage env _ _).
  destruct answer as [response|].
  - pose proof (findImagePart_no_effects response) as Hf.
    destruct (findImagePart response) as [fes [[part|]|]];
      simpl in Hf; subst fes.
    + simpl. destruct (inlineData part) as [d|].
      * right. exists (ces ++ [request]), d.
        rewrite silent_app, Hc. split; [reflexivity|].
        now rewrite <- app_assoc.
      * left. simpl. rewrite silent_app, Hc. now split.
    + left. simpl. rewrite silent_app, Hc. now split.
    + left. simpl. rewrite silent_app, Hc. now split.
  - left. simpl. rewrite silent_app, Hc. now split.
Qed.

End Harmonize.

(** C5. A harmonize call that fails, because its [try] block throws (no
    canvas, an image that does not load, a rejected request, a response
    without an image part) or because the guard turns it away while no
    other call is in flight, leaves the display image and the placements as
    they were, leaves the loading indicator off and shows one message. *)
Theorem failed_harmonize_keeps_image_and_placements
    (env : HarmonizeEnv) (s : State) :
  harmonizeThrows env s = true
  \/ (harmonizeRejected s = true /\ isLoading s = false) ->
  let s' := run (handleHarmonize env s) s in
  displayImage s' = displayImage s
  /\ placedProducts s' = placedProducts s
  /\ isLoading s' = false
  /\ (exists message, error s' = Some message)
  /\ userErrors (handleHarmonize env s) = 1%nat.
Proof.
  intros Hfails s'. subst s'.
  unfold handleHarmonize, harmonizeThrows, harmonizeRejected in *.
  destruct (displayImage s) as [roomImage|] eqn:Hd.
  2: { destruct Hfails as [Ht|[_ Hidle]]; [discriminate|].
       simpl. rewrite Hd, Hidle. repeat split. now eexists. }
  destruct (negb (truthy (Some roomImage))
            || Nat.eqb (List.length (placedProducts s)) 0) eqn:Hguard.
  { destruct Hfails as [Ht|[_ Hidle]]; [discriminate|].
    simpl. rewrite Hd, Hidle. repeat split. now eexists. }
  destruct Hfails as [Ht|[Hr _]]; [|discriminate].
  simpl in Ht. apply negb_true_iff in Ht.
  destruct (harmonizeBody_cases env roomImage (placedProducts s)
              (userInstructions s)) as [[Hthrow Hsilent]|(es & d & _ & E)].
  - destruct (harmonizeBody env roomImage (placedProducts s)
                (userInstructions s)) as [bes [u|]];
      simpl in Hthrow, Hsilent; [discriminate|].
    unfold tryCatchFinally, userErrors.
    rewrite !run_app, (run_silent bes _ Hsilent).
    rewrite !filter_app, (silent_no_user_error bes Hsilent).
    simpl. rewrite Hd. repeat split. now eexists.
  - rewrite E in Ht. discriminate.
Qed.

Lemma failed_harmonize_keeps_image_and_placements_witness :
  let s := Sample.chairDropped in
  let s' := run (handleHarmonize Sample.textOnly s) s in
  harmonizeThrows Sample.textOnly s = true
  /\ displayImage s' = displayImage s
  /\ placedProducts s' = placedProducts s
  /\ isLoading s' = false
  /\ (exists message, error s' = Some message)
  /\ userErrors (handleHarmonize Sample.textOnly s) = 1%nat.
Proof.
  intros s s'.
  assert (H : harmonizeThrows Sample.textOnly s = true) by reflexivity.
  split; [exact H|].
  exact (failed_harmonize_keeps_image_and_placements Sample.textOnly s
           (or_introl H)).
Defined.

(** C6. With no placement, or with no display image, [handleHarmonize]
    does one thing only: it sets the message asking to add a product
    first.  No request is sent and every other state cell keeps its
    value. *)
Theorem harmonize_needs_a_placement (env : HarmonizeEnv) (s : State) :
  placedProducts s = [] \/ displayImage s = None ->
  handleHarmonize env s = [ SetError (Some harmonizePreconditionError) ]
  /\ networkCalls (handleHarmonize env s) = 0%nat
  /\ run (handleHarmonize env s) s
     = mkState (originalRoomImage s) (displayImage s) (availableProducts s)
         (placedProducts s) (selectedProductId s) (isLoading s)
         (isProcessingProducts s) (Some harmonizePreconditionError)
         (previousState s) (userInstructions s) (interactionState s).
Proof.
  intro H.
  assert (E : handleHarmonize env s
              = [ SetError (Some harmonizePreconditionError) ]).
  { unfold handleHarmonize.
    destruct (displayImage s) as [roomImage|]; [|reflexivity].
    destruct H as [H|H]; [|discriminate].
    rewrite H. simpl. now rewrite orb_true_r. }
  rewrite E. now repeat split.
Qed.

Lemma harmonize_needs_a_placement_witness :
  placedProducts Sample.roomLoaded = []
  /\ handleHarmonize Sample.browser Sample.roomLoaded
     = [ SetError (Some harmonizePreconditionError) ]
  /\ networkCalls (handleHarmonize Sample.browser Sample.roomLoaded) = 0%nat
  /\ error (run (handleHarmonize Sample.browser Sample.roomLoaded)
                Sample.roomLoaded)
     = Some harmonizePreconditionError.
Proof.
  assert (H : placedProducts Sample.roomLoaded = []) by reflexivity.
  split; [exact H|].
  destruct (harmonize_needs_a_placement Sample.browser Sample.roomLoaded
              (or_introl H)) as (E & Hn & Hs).
  split; [exact E|]. split; [exact Hn|]. now rewrite Hs.
Defined.

(** ** Undo *)

Lemma length_zero_nil {A} (l : list A) :
  Nat.eqb (List.length l) 0 = true <-> l = [].
Proof.
  destruct l; simpl; split; intro H; try reflexivity; discriminate.
Qed.

Lemma undoOffered_spec (s : State) :
  undoOffered s = true
  <-> previousState s <> None /\ placedProducts s = [] /\ isLoading s = false.
Proof.
  unfold undoOffered.
  rewrite !andb_true_iff, length_zero_nil, negb_true_iff.
  destruct (previousState s); simpl; split.
  - intros [[_ H1] H2]. repeat split; [discriminate | assumption..].
  - intros (_ & H1 & H2). now repeat split.
  - intros [[H _] _]. discriminate.
  - intros (H & _). now contradiction H.
Qed.

(** C7. The Undo button is there only when a snapshot exists and the
    collection of placements is empty, and without the button a click does
    nothing.  Run in such a state, [handleUndo] sets the display image and
    the placements to the snapshot's and clears the snapshot; after that
    the button is gone and [handleUndo] itself has nothing left to do. *)
Theorem undo_restores_snapshot_once (s : State) :
  (undoOffered s = true -> previousState s <> None /\ placedProducts s = [])
  /\ (undoOffered s = false -> step s UndoClicked = s)
  /\ forall snapshot,
       previousState s = Some snapshot ->
       placedProducts s = [] ->
       let s' := run (handleUndo s) s in
       displayImage s' = snap_displayImage snapshot
       /\ placedProducts s' = snap_placedProducts snapshot
       /\ previousState s' = None
       /\ undoOffered s' = false
       /\ handleUndo s' = [].
Proof.
  split; [|split].
  - intro H. apply undoOffered_spec in H as (H1 & H2 & _). now split.
  - intro H. unfold step, handle. now rewrite H.
  - intros snapshot Hsnap _ s'. subst s'.
    unfold handleUndo. rewrite Hsnap. now repeat split.
Qed.

Lemma undo_restores_snapshot_once_witness :
  let s := run (handleHarmonize Sample.browser Sample.chairDropped)
               Sample.chairDropped in
  let snapshot := mkSnapshot (Some Sample.room) [Sample.chairPlaced] in
  let s' := run (handleUndo s) s in
  (undoOffered s = true
   /\ previousState s = Some snapshot
   /\ placedProducts s = [])
  /\ displayImage s' = Some Sample.room
  /\ placedProducts s' = [Sample.chairPlaced]
  /\ previousState s' = None
  /\ undoOffered s' = false.
Proof.
  intros s snapshot s'.
  assert (H0 : undoOffered s = true) by reflexivity.
  assert (H1 : previousState s = Some snapshot) by reflexivity.
  assert (H2 : placedProducts s = []) by reflexivity.
  split; [now repeat split|].
  destruct (undo_restores_snapshot_once s) as (_ & _ & H).
  destruct (H snapshot H1 H2) as (Hd & Hp & Hs & Hu & _).
  now repeat split.
Defined.

(** Right after a harmonize that succeeds the button is there. *)
Lemma undo_offered_after_harmonize (env : HarmonizeEnv) (s : State)
    (roomImage : string) :
  harmonizeEnabled s = true ->
  displayImage s = Some roomImage ->
  truthy (Some roomImage) = true ->
  snd (harmonizeBody env roomImage (placedProducts s) (userInstructions s))
  = Some tt ->
  let s' := step s (HarmonizeClicked env) in
  undoOffered s' = true
  /\ placedProducts s' = []
  /\ previousState s'
     = Some (mkSnapshot (displayImage s) (placedProducts s)).
Proof.
  intros Hen Hd Ht Hok s'. subst s'.
  unfold step, handle. rewrite Hen.
  unfold harmonizeEnabled in Hen. apply andb_true_iff in Hen as [Hlen Hidle].
  unfold handleHarmonize. rewrite Hd, Ht.
  destruct (placedProducts s) as [|p ps] eqn:Hp; [discriminate|].
  cbn [negb orb List.length Nat.eqb].
  destruct (harmonizeBody_cases env roomImage (p :: ps)
              (userInstructions s)) as [[Hthrow _]|(es & d & Hsilent & E)];
    [congruence|].
  rewrite E. unfold tryCatchFinally.
  rewrite !run_app. cbn [run fold_left apply].
  rewrite (run_silent es _ Hsilent).
  unfold undoOffered. now cbn.
Qed.

(** A placement added after that takes the button away again. *)
Lemma undo_withdrawn_by_new_placement (s : State) (e : PointerEvent)
    (source text : string) (rect : Rect) (w h now : Z) :
  truthy (Some source) = true ->
  undoOffered
    (step s (Dropped e (Some (source, text)) (Some rect) (Some (w, h)) now))
  = false.
Proof.
  intro Ht. unfold step, handle, handleDrop. rewrite Ht.
  unfold undoOffered. cbn [run fold_left apply placedProducts].
  rewrite length_app. cbn [List.length]. rewrite Nat.add_comm. cbn.
  now rewrite andb_false_r.
Qed.

(** ** A new room *)

(** C10. [handleRoomUpload] empties the collection of placements and sets
    the original and the display image to the first upload; the snapshot,
    the message and the selection keep their values.  Hence the Undo
    button is there afterwards exactly when a snapshot exists and no
    harmonize is in flight; in particular it stays when it was there, and
    undo then brings back the display image and the placements of the
    snapshot, taken from the previous room. *)
Theorem new_room_keeps_snapshot (urls : list string) (s : State) :
  let s' := run (handleRoomUpload urls) s in
  placedProducts s' = []
  /\ originalRoomImage s' = nth_error urls 0
  /\ displayImage s' = nth_error urls 0
  /\ previousState s' = previousState s
  /\ error s' = error s
  /\ selectedProductId s' = selectedProductId s
  /\ undoOffered s' = isSome (previousState s) && negb (isLoading s)
  /\ forall snapshot,
       previousState s = Some snapshot ->
       undoOffered s = true ->
       undoOffered s' = true
       /\ displayImage (step s' UndoClicked) = snap_displayImage snapshot
       /\ placedProducts (step s' UndoClicked)
          = snap_placedProducts snapshot.
Proof.
  intro s'. subst s'.
  assert (Hu : undoOffered (run (handleRoomUpload urls) s)
               = isSome (previousState s) && negb (isLoading s)).
  { unfold undoOffered. cbn. now rewrite andb_true_r. }
  repeat (split; [reflexivity|]).
  split; [exact Hu|].
  intros snapshot Hsnap Hoffered.
  apply undoOffered_spec in Hoffered as (_ & _ & Hidle).
  assert (Hu' : undoOffered (run (handleRoomUpload urls) s) = true)
    by (rewrite Hu, Hsnap, Hidle; reflexivity).
  split; [exact Hu'|].
  unfold step, handle. rewrite Hu'.
  unfold handleUndo.
  change (previousState (run (handleRoomUpload urls) s))
    with (previousState s).
  rewrite Hsnap. now split.
Qed.

Lemma new_room_keeps_snapshot_witness :
  let s := run (handleHarmonize Sample.browser Sample.chairDropped)
               Sample.chairDropped in
  let snapshot := mkSnapshot (Some Sample.room) [Sample.chairPlaced] in
  let s' := run (handleRoomUpload [Sample.sofa]) s in
  (previousState s = Some snapshot /\ undoOffered s = true)
  /\ displayImage s' = Some Sample.sofa
  /\ undoOffered s' = true
  /\ displayImage (step s' UndoClicked) = Some Sample.room
  /\ placedProducts (step s' UndoClicked) = [Sample.chairPlaced].
Proof.
  intros s snapshot s'.
  assert (H1 : previousState s = Some snapshot) by reflexivity.
  assert (H2 : undoOffered s = true) by reflexivity.
  split; [now split|].
  destruct (new_room_keeps_snapshot [Sample.sofa] s)
    as (_ & _ & Hd & _ & _ & _ & _ & H).
  destruct (H snapshot H1 H2) as (Hu & Hd' & Hp').
  now repeat split.
Defined.

(** ** Placement ids *)

Lemma keepsPlacements_run (es : list Effect) (s : State) :
  forallb keepsPlacements es = true ->
  placedProducts (run es s) = placedProducts s
  /\ previousState (run es s) = previousState s.
Proof.
  revert s. induction es as [|e es IH]; intros s H; [now split|].
  simpl in H. apply andb_true_iff in H as [He Hes].
  rewrite run_cons. destruct (IH (apply e s) Hes) as [-> ->].
  destruct e; simpl in He; try discriminate; now split.
Qed.

Lemma silent_keepsPlacements (es : list Effect) :
  forallb silent es = true -> forallb keepsPlacements es = true.
Proof.
  induction es as [|e es IH]; intro H; [reflexivity|].
  simpl in H. apply andb_true_iff in H as [He Hes].
  simpl. rewrite (IH Hes). destruct e; simpl in He; try discriminate;
    reflexivity.
Qed.

Lemma handleProductUpload_keepsPlacements
    (service : DescriptionService) (urls : list string) :
  forallb keepsPlacements (handleProductUpload service urls) = true.
Proof.
  unfold handleProductUpload, promiseAll.
  pose proof (silent_keepsPlacements _ (requests_silent service urls)) as H.
  destruct (Exn.all (map snd (map (describeProduct service) urls)));
    simpl; rewrite ?forallb_app, H; reflexivity.
Qed.

Lemma handleMouseDown_keepsPlacements (e : PointerEvent) (pid : Z)
    (ty : InteractionType) (mounted : bool) (placed : list Product) :
  forallb keepsPlacements (handleMouseDown e pid ty mounted placed) = true.
Proof.
  unfold handleMouseDown.
  destruct (find _ placed); [destruct mounted|]; reflexivity.
Qed.

Lemma ids_dragged (i : Interaction) (dx dy : Q) (ps : list Product) :
  map id (map (dragged i dx dy) ps) = map id ps.
Proof.
  rewrite map_map. apply map_ext. intro p. unfold dragged.
  destruct (Z.eqb (id p) (productId i)); [|reflexivity].
  now destruct (type i) as [[]|].
Qed.

Lemma idsBelow_nil (bound : Z) : idsBelow bound [].
Proof. split; constructor. Qed.

Lemma idsBelow_weaken (b b' : Z) (ps : list Product) :
  (b <= b')%Z -> idsBelow b ps -> idsBelow b' ps.
Proof.
  intros Hb [Hs Hall]. split; [exact Hs|].
  eapply Forall_impl; [|exact Hall]. simpl. intros p Hp. lia.
Qed.

Lemma idsBelow_same_ids (b : Z) (ps qs : list Product) :
  map id qs = map id ps -> idsBelow b ps -> idsBelow b qs.
Proof.
  intros E [Hs Hall]. split; [now rewrite E|].
  apply Forall_forall. intros q Hq.
  assert (Hin : In (id q) (map id ps)) by (rewrite <- E; now apply in_map).
  apply in_map_iff in Hin as (p & Hp & Hinp).
  rewrite Forall_forall in Hall. rewrite <- Hp. now apply Hall.
Qed.

Lemma sorted_snoc (ids : list Z) (t : Z) :
  StronglySorted Z.lt ids -> Forall (fun i => (i < t)%Z) ids ->
  StronglySorted Z.lt (ids ++ [t]).
Proof.
  induction 1 as [|i ids Hs IH Hi]; intro Hall; simpl.
  - repeat constructor.
  - inversion Hall as [|? ? Hit Hrest]; subst.
    constructor; [now apply IH|].
    apply Forall_app. split; [exact Hi | now repeat constructor].
Qed.

(** Appending a placement stamped with a reading at or above the bound. *)
Lemma idsBelow_snoc (b : Z) (ps : list Product) (p : Product) :
  (b <= id p)%Z -> idsBelow b ps -> idsBelow (id p + 1) (ps ++ [p]).
Proof.
  intros Hb [Hs Hall]. split.
  - rewrite map_app. simpl. apply sorted_snoc; [exact Hs|].
    apply Forall_forall. intros i Hi.
    apply in_map_iff in Hi as (q & <- & Hq).
    rewrite Forall_forall in Hall. specialize (Hall q Hq). lia.
  - apply Forall_app. split.
    + eapply Forall_impl; [|exact Hall]. simpl. intros q Hq. lia.
    + repeat constructor. lia.
Qed.

Lemma ordered_frame (b : Z) (s s' : State) :
  placedProducts s' = placedProducts s ->
  previousState s' = previousState s ->
  ordered b s -> ordered b s'.
Proof. unfold ordered. now intros -> ->. Qed.

Lemma ordered_kept (b : Z) (es : list Effect) (s : State) :
  forallb keepsPlacements es = true -> ordered b s -> ordered b (run es s).
Proof.
  intros H. destruct (keepsPlacements_run es s H) as [Hp Hs].
  now apply ordered_frame.
Qed.

Lemma harmonize_ordered (b : Z) (env : HarmonizeEnv) (s : State) :
  ordered b s -> ordered b (run (handleHarmonize env s) s).
Proof.
  intros [Hp Hs]. unfold handleHarmonize.
  destruct (displayImage s) as [roomImage|];
    [|apply ordered_kept; [reflexivity | now split]].
  destruct (negb (truthy (Some roomImage))
            || Nat.eqb (List.length (placedProducts s)) 0);
    [apply ordered_kept; [reflexivity | now split]|].
  destruct (harmonizeBody_cases env roomImage (placedProducts s)
              (userInstructions s)) as [[Hthrow Hsilent]|(es & d & Hsilent & E)].
  - destruct (harmonizeBody env roomImage (placedProducts s)
                (userInstructions s)) as [bes [u|]];
      simpl in Hthrow, Hsilent; [discriminate|].
    unfold tryCatchFinally.
    rewrite !run_app, (run_silent bes _ Hsilent). now split.
  - rewrite E. unfold tryCatchFinally.
    rewrite !run_app, (run_silent es _ Hsilent).
    split; [apply idsBelow_nil | exact Hp].
Qed.

(** One event keeps the ids ordered, provided its clock reading, if it
    takes one, is at or above the bound. *)
Lemma step_ordered (b : Z) (s : State) (ev : Event) :
  ordered b s ->
  match clockReading ev with Some t => (b <= t)%Z | None => True end ->
  ordered (nextBound b ev) (step s ev).
Proof.
  intros Hord Hclock. pose proof Hord as [Hp Hs].
  unfold nextBound, step.
  destruct ev as [urls|service urls|e data rect loaded now|e pid ty mounted
                 |e| | |v| | |env]; simpl clockReading in *; simpl handle.
  - split; [apply idsBelow_nil | exact Hs].
  - destruct (truthy (originalRoomImage s) && negb (isProcessingProducts s));
      [|exact Hord].
    apply ordered_kept;
      [apply handleProductUpload_keepsPlacements | exact Hord].
  - unfold handleDrop in *.
    destruct data as [[source text]|]; [|exact Hord].
    destruct rect as [rect|]; [|exact Hord].
    destruct (truthy (Some source)); [|exact Hord].
    destruct loaded as [[w h]|]; [|exact Hord].
    split.
    + apply (idsBelow_snoc b); [exact Hclock | exact Hp].
    + change (previousState (run _ s)) with (previousState s).
      destruct (previousState s); [|exact I].
      eapply idsBelow_weaken; [|exact Hs]. lia.
  - apply ordered_kept;
      [apply handleMouseDown_keepsPlacements | exact Hord].
  - unfold handleMouseMove. destruct (interactionState s) as [i|];
      [|exact Hord].
    split; [|exact Hs].
    eapply idsBelow_same_ids; [|exact Hp]. apply ids_dragged.
  - exact Hord.
  - exact Hord.
  - exact Hord.
  - destruct (resetOffered s); [|exact Hord].
    split; [apply idsBelow_nil | exact I].
  - destruct (undoOffered s); [|exact Hord].
    unfold handleUndo. destruct (previousState s) as [snapshot|] eqn:E;
      [|unfold ordered; simpl; now rewrite E].
    split; [exact Hs | exact I].
  - destruct (harmonizeEnabled s); [|exact Hord].
    now apply harmonize_ordered.
Qed.

Lemma session_ordered (evs : list Event) (b : Z) (s : State) :
  ordered b s ->
  increasingFrom b (clockReadings evs) ->
  exists b', ordered b' (fold_left step evs s).
Proof.
  revert b s. induction evs as [|ev evs IH]; intros b s Hord Hinc.
  - now exists b.
  - simpl. apply (IH (nextBound b ev)).
    + apply step_ordered; [exact Hord|].
      simpl in Hinc. destruct (clockReading ev); [apply Hinc | exact I].
    + unfold nextBound. simpl in Hinc.
      destruct (clockReading ev); [apply Hinc | exact Hinc].
Qed.

Lemma sorted_increasingFrom (ts : list Z) (b : Z) :
  StronglySorted Z.lt ts -> Forall (fun t => (b <= t)%Z) ts ->
  increasingFrom b ts.
Proof.
  intro Hs. revert b. induction Hs as [|t ts Hs IH Ht]; intros b Hb;
    [exact I|].
  inversion Hb; subst. split; [assumption|].
  apply IH. eapply Forall_impl; [|exact Ht]. simpl. intros; lia.
Qed.

Lemma sorted_nth (ids : list Z) :
  StronglySorted Z.lt ids ->
  forall i j a b, (i < j)%nat ->
    nth_error ids i = Some a -> nth_error ids j = Some b -> (a < b)%Z.
Proof.
  induction 1 as [|h ids Hs IH Hh]; intros i j a b Hij Ha Hb.
  - destruct i; discriminate.
  - destruct j as [|j]; [lia|]. simpl in Hb.
    destruct i as [|i]; simpl in Ha.
    + injection Ha as <-. rewrite Forall_forall in Hh.
      apply Hh. eapply nth_error_In; eauto.
    + apply (IH i j); [lia | assumption..].
Qed.

Lemma sorted_NoDup (ids : list Z) : StronglySorted Z.lt ids -> NoDup ids.
Proof.
  induction 1 as [|h ids Hs IH Hh]; constructor; [|exact IH].
  intro Hin. rewrite Forall_forall in Hh. specialize (Hh h Hin). lia.
Qed.

Lemma sorted_head_least (ts : list Z) :
  StronglySorted Z.lt ts -> Forall (fun t => (hd 0%Z ts <= t)%Z) ts.
Proof.
  destruct 1 as [|t ts Hs Ht]; constructor; simpl; [lia|].
  eapply Forall_impl; [|exact Ht]. simpl. intros; lia.
Qed.

(** C9, as the code has it.  A placement's id is the clock reading taken
    when its image finished loading.  In every session whose readings are
    strictly increasing, the ids in the collection are pairwise distinct
    and a placement inserted later has a strictly greater id. *)
Theorem ids_increase_with_the_clock (evs : list Event) :
  StronglySorted Z.lt (clockReadings evs) ->
  let placed := placedProducts (session evs) in
  NoDup (map id placed)
  /\ forall i j p q,
       (i < j)%nat ->
       nth_error placed i = Some p ->
       nth_error placed j = Some q ->
       (id p < id q)%Z.
Proof.
  intros Hclock placed. subst placed. unfold session.
  destruct (session_ordered evs (hd 0%Z (clockReadings evs)) initialState)
    as (b & [[Hsorted _] _]).
  - split; [apply idsBelow_nil | exact I].
  - apply sorted_increasingFrom; [exact Hclock|].
    now apply sorted_head_least.
  - split; [now apply sorted_NoDup|].
    intros i j p q Hij Hp Hq.
    apply (sorted_nth _ Hsorted i j); [exact Hij | |];
      rewrite nth_error_map; [now rewrite Hp | now rewrite Hq].
Qed.

Lemma ids_increase_with_the_clock_witness :
  let placed := placedProducts (session Sample.oneSecondApart) in
  StronglySorted Z.lt (clockReadings Sample.oneSecondApart)
  /\ placed = [Sample.chairPlaced; Sample.lampPlaced]
  /\ NoDup (map id placed)
  /\ (id Sample.chairPlaced < id Sample.lampPlaced)%Z.
Proof.
  intro placed.
  assert (H : StronglySorted Z.lt (clockReadings Sample.oneSecondApart)).
  { simpl. repeat constructor. }
  split; [exact H|].
  destruct (ids_increase_with_the_clock Sample.oneSecondApart H)
    as [Hnodup Hlt].
  split; [reflexivity|]. split; [exact Hnodup|].
  apply (Hlt 0%nat 1%nat); [lia | reflexivity | reflexivity].
Defined.

(** Two products whose images finish loading within the same millisecond
    become two different placements with one id. *)
Lemma ids_collide_within_a_millisecond :
  let placed := placedProducts (session Sample.sameMillisecond) in
  placed = [ Sample.chairPlaced;
             newProduct (mkPointer 120 90) Sample.origin Sample.lamp
                        "a lamp" 100 200 1000 ]
  /\ ~ NoDup (map id placed)
  /\ exists p q,
       nth_error placed 0 = Some p
       /\ nth_error placed 1 = Some q
       /\ src p <> src q
       /\ id p = id q.
Proof.
  intro placed. split; [reflexivity|]. split.
  - intro H. inversion H as [|? ? Hnotin _]. apply Hnotin. now left.
  - exists Sample.chairPlaced,
      (newProduct (mkPointer 120 90) Sample.origin Sample.lamp
                  "a lamp" 100 200 1000).
    repeat split. discriminate.
Qed.

(** ** The shape of placements *)

Lemma newProduct_wellProportioned (e : PointerEvent) (rect : Rect)
    (source text : string) (w h now : Z) :
  (0 < w)%Z -> (0 < h)%Z ->
  wellProportioned (newProduct e rect source text w h now).
Proof.
  intros Hw Hh. unfold wellProportioned. simpl.
  split; [now apply ratio_pos|]. split; [reflexivity | discriminate].
Qed.

Lemma dragged_wellProportioned (i : Interaction) (dx dy : Q) (p : Product) :
  wellProportioned p -> wellProportioned (dragged i dx dy p).
Proof.
  intros (Hpos & Hh & Hw). unfold dragged.
  destruct (Z.eqb (id p) (productId i)); [|now repeat split].
  destruct (type i) as [[]|]; [now repeat split | | now repeat split].
  unfold wellProportioned.
  change (aspectRatio (resized i dx p)) with (aspectRatio p).
  split; [exact Hpos|].
  split; [now apply resized_height | apply resized_width_min].
Qed.

Lemma proportioned_kept (es : list Effect) (s : State) :
  forallb keepsPlacements es = true ->
  proportioned s -> proportioned (run es s).
Proof.
  intro H. destruct (keepsPlacements_run es s H) as [Hp Hs].
  unfold proportioned. now rewrite Hp, Hs.
Qed.

Lemma harmonize_proportioned (env : HarmonizeEnv) (s : State) :
  proportioned s -> proportioned (run (handleHarmonize env s) s).
Proof.
  intros [Hp Hs]. unfold handleHarmonize.
  destruct (displayImage s) as [roomImage|];
    [|apply proportioned_kept; [reflexivity | now split]].
  destruct (negb (truthy (Some roomImage))
            || Nat.eqb (List.length (placedProducts s)) 0);
    [apply proportioned_kept; [reflexivity | now split]|].
  destruct (harmonizeBody_cases env roomImage (placedProducts s)
              (userInstructions s)) as [[Hthrow Hsilent]|(es & d & Hsilent & E)].
  - destruct (harmonizeBody env roomImage (placedProducts s)
                (userInstructions s)) as [bes [u|]];
      simpl in Hthrow, Hsilent; [discriminate|].
    unfold tryCatchFinally.
    rewrite !run_app, (run_silent bes _ Hsilent). now split.
  - rewrite E. unfold tryCatchFinally.
    rewrite !run_app, (run_silent es _ Hsilent).
    split; [constructor | exact Hp].
Qed.

Lemma step_proportioned (s : State) (ev : Event) :
  loadsWithSize ev -> proportioned s -> proportioned (step s ev).
Proof.
  intros Hsize Hprop. pose proof Hprop as [Hp Hs]. unfold step.
  destruct ev as [urls|service urls|e data rect loaded now|e pid ty mounted
                 |e| | |v| | |env]; simpl handle.
  - split; [constructor | exact Hs].
  - destruct (truthy (originalRoomImage s) && negb (isProcessingProducts s));
      [|exact Hprop].
    apply proportioned_kept;
      [apply handleProductUpload_keepsPlacements | exact Hprop].
  - unfold handleDrop.
    destruct data as [[source text]|]; [|exact Hprop].
    destruct rect as [rect|]; [|exact Hprop].
    destruct (truthy (Some source)); [|exact Hprop].
    destruct loaded as [[w h]|]; [|exact Hprop].
    destruct Hsize as [Hw Hh].
    split; [|exact Hs].
    apply Forall_app. split; [exact Hp|].
    constructor; [now apply newProduct_wellProportioned | constructor].
  - apply proportioned_kept;
      [apply handleMouseDown_keepsPlacements | exact Hprop].
  - unfold handleMouseMove. destruct (interactionState s) as [i|];
      [|exact Hprop].
    split; [|exact Hs].
    apply Forall_forall. intros q Hq.
    apply in_map_iff in Hq as (p & <- & Hin).
    apply dragged_wellProportioned.
    rewrite Forall_forall in Hp. now apply Hp.
  - exact Hprop.
  - exact Hprop.
  - exact Hprop.
  - destruct (resetOffered s); [|exact Hprop].
    split; [constructor | exact I].
  - destruct (undoOffered s); [|exact Hprop].
    unfold handleUndo. destruct (previousState s) as [snapshot|] eqn:E;
      [|unfold proportioned; simpl; now rewrite E].
    split; [exact Hs | exact I].
  - destruct (harmonizeEnabled s); [|exact Hprop].
    now apply harmonize_proportioned.
Qed.

(** In every session whose dropped images load with a positive size, each
    placement has a positive aspect ratio, a height equal to its width
    divided by the aspect ratio, and a width of at least 20. *)
Lemma session_proportioned (evs : list Event) :
  Forall loadsWithSize evs ->
  Forall wellProportioned (placedProducts (session evs)).
Proof.
  intro Hsizes. unfold session.
  assert (H : proportioned initialState) by (split; [constructor | exact I]).
  revert H. generalize initialState.
  induction Hsizes as [|ev evs Hev _ IH]; intros s H.
  - apply H.
  - simpl. apply IH. now apply step_proportioned.
Qed.

(** ** File selection *)

Section FileSelection.

Variable files : list string.

Lemma onload_in_range (st : FileChange.Progress) (index : nat) :
  (index < List.length files)%nat ->
  FileChange.onload files st index
  = FileChange.mkProgress
      (FileChange.urls st ++ [fileAt files index])
      (S (FileChange.filesProcessed st))
      (if Nat.eqb (S (FileChange.filesProcessed st)) (List.length files)
       then FileChange.calls st
            ++ [FileChange.urls st ++ [fileAt files index]]
       else FileChange.calls st).
Proof.
  intro H. unfold FileChange.onload, fileAt.
  now rewrite (nth_error_nth' files EmptyString H).
Qed.

(** While a reader is still outstanding, [setter] is not called. *)
Lemma readers_outstanding (completions : list nat)
    (st : FileChange.Progress) :
  Forall (fun k => (k < List.length files)%nat) completions ->
  (FileChange.filesProcessed st + List.length completions
   < List.length files)%nat ->
  FileChange.calls (fold_left (FileChange.onload files) completions st)
  = FileChange.calls st.
Proof.
  revert st. induction completions as [|k rest IH]; intros st Hrange Hlt;
    [reflexivity|].
  inversion Hrange as [|? ? Hk Hrest]; subst.
  cbn [List.length fold_left] in *.
  rewrite (onload_in_range st k Hk).
  rewrite IH;
    cbn [FileChange.calls FileChange.filesProcessed FileChange.urls];
    [|assumption|lia].
  destruct (Nat.eqb_spec (S (FileChange.filesProcessed st))
              (List.length files)); [lia | reflexivity].
Qed.

(** The last reader to finish triggers the one call, with the results in
    the order the readers finished. *)
Lemma readers_finished (completions : list nat)
    (st : FileChange.Progress) :
  Forall (fun k => (k < List.length files)%nat) completions ->
  completions <> [] ->
  (FileChange.filesProcessed st + List.length completions
   = List.length files)%nat ->
  FileChange.calls (fold_left (FileChange.onload files) completions st)
  = FileChange.calls st
    ++ [FileChange.urls st ++ map (fileAt files) completions].
Proof.
  revert st. induction completions as [|k rest IH]; intros st Hrange Hne Hn;
    [contradiction|].
  inversion Hrange as [|? ? Hk Hrest]; subst.
  cbn [List.length fold_left] in *.
  rewrite (onload_in_range st k Hk).
  destruct rest as [|k' rest'].
  - cbn [fold_left map FileChange.calls List.length] in *.
    destruct (Nat.eqb_spec (S (FileChange.filesProcessed st))
                (List.length files)); [reflexivity | lia].
  - rewrite IH;
      cbn [FileChange.calls FileChange.filesProcessed FileChange.urls];
      [|assumption|discriminate|cbn [List.length] in *; lia].
    destruct (Nat.eqb_spec (S (FileChange.filesProcessed st))
                (List.length files)); [cbn [List.length] in Hn; lia|].
    now rewrite <- app_assoc.
Qed.

Lemma files_by_index :
  map (fileAt files) (seq 0 (List.length files)) = files.
Proof.
  unfold fileAt. induction files as [|f fs IH]; [reflexivity|].
  simpl. f_equal. rewrite <- seq_shift, map_map. exact IH.
Qed.

End FileSelection.

Lemma completions_in_range (files : list string) (completions : list nat) :
  Permutation.Permutation completions (seq 0 (List.length files)) ->
  Forall (fun k => (k < List.length files)%nat) completions
  /\ List.length completions = List.length files.
Proof.
  intro H. split.
  - apply Forall_forall. intros k Hk.
    apply (Permutation.Permutation_in _ H), in_seq in Hk. lia.
  - rewrite (Permutation.Permutation_length H). apply length_seq.
Qed.

Lemma handleFileChange_complete
    (files : list string) (setter : list string -> list Effect)
    (completions : list nat) :
  files <> [] ->
  Permutation.Permutation completions (seq 0 (List.length files)) ->
  handleFileChange (Some files) setter completions
  = setter (map (fileAt files) completions).
Proof.
  intros Hne Hperm.
  destruct (completions_in_range files completions Hperm) as [Hrange Hlen].
  unfold handleFileChange, FileChange.setterCalls.
  destruct files as [|f fs]; [contradiction|].
  cbn [List.length Nat.eqb].
  rewrite readers_finished; [simpl; apply app_nil_r | exact Hrange | |].
  - intro E. rewrite E in Hlen. discriminate.
  - simpl. exact Hlen.
Qed.

(** Once every reader has finished, each exactly once, [handleFileChange]
    has called [setter] exactly once, with the files in the order their
    readers finished, which is a rearrangement of the selection. *)
Theorem file_change_delivers_once_in_completion_order
    (files : list string) (setter : list string -> list Effect)
    (completions : list nat) :
  files <> [] ->
  Permutation.Permutation completions (seq 0 (List.length files)) ->
  handleFileChange (Some files) setter completions
  = setter (map (fileAt files) completions)
  /\ Permutation.Permutation (map (fileAt files) completions) files.
Proof.
  intros Hne Hperm. split.
  - now apply handleFileChange_complete.
  - rewrite <- (files_by_index files) at 2.
    now apply Permutation.Permutation_map.
Qed.

Lemma file_change_delivers_once_in_completion_order_witness :
  let completions := [2; 0; 1]%nat in
  (Tour.threeFiles <> []
   /\ Permutation.Permutation completions
        (seq 0 (List.length Tour.threeFiles)))
  /\ handleFileChange (Some Tour.threeFiles)
       (handleProductUpload Sample.flaky) completions
     = handleProductUpload Sample.flaky
         [Sample.sofa; Sample.chair; Sample.lamp].
Proof.
  intro completions.
  assert (H1 : Tour.threeFiles <> []) by discriminate.
  assert (H2 : Permutation.Permutation completions
                 (seq 0 (List.length Tour.threeFiles))).
  { simpl. unfold completions.
    apply Permutation.Permutation_sym.
    apply (Permutation.Permutation_cons_app [2%nat] [1%nat] 0%nat).
    simpl. apply Permutation.perm_swap. }
  split; [now split|].
  exact (proj1 (file_change_delivers_once_in_completion_order
                  Tour.threeFiles (handleProductUpload Sample.flaky)
                  completions H1 H2)).
Defined.

(** As long as one reader has not finished (or never does: [onerror] is not
    handled), [setter] is not called at all. *)
Theorem file_change_waits_for_every_reader
    (files : list string) (setter : list string -> list Effect)
    (completions : list nat) :
  Forall (fun k => (k < List.length files)%nat) completions ->
  (List.length completions < List.length files)%nat ->
  handleFileChange (Some files) setter completions = [].
Proof.
  intros Hrange Hlt. unfold handleFileChange, FileChange.setterCalls.
  destruct (Nat.eqb (List.length files) 0); [reflexivity|].
  now rewrite readers_outstanding.
Qed.

Lemma file_change_waits_for_every_reader_witness :
  let completions := [2; 0]%nat in
  (Forall (fun k => (k < List.length Tour.threeFiles)%nat) completions
   /\ (List.length completions < List.length Tour.threeFiles)%nat)
  /\ handleFileChange (Some Tour.threeFiles)
       (handleProductUpload Sample.flaky) completions = [].
Proof.
  intro completions.
  assert (H1 : Forall (fun k => (k < List.length Tour.threeFiles)%nat)
                 completions) by (repeat constructor).
  assert (H2 : (List.length completions < List.length Tour.threeFiles)%nat)
    by (simpl; lia).
  split; [now split|].
  exact (file_change_waits_for_every_reader Tour.threeFiles
           (handleProductUpload Sample.flaky) completions H1 H2).
Defined.

(** A room selected through the file input becomes the display image and
    the original image: the file whose reader finished first, which is one
    of the selected files and never [undefined]. *)
Theorem room_is_first_file_read (files : list string)
    (completions : list nat) (s : State) :
  files <> [] ->
  Permutation.Permutation completions (seq 0 (List.length files)) ->
  let s' := run (handleFileChange (Some files) handleRoomUpload completions)
                s in
  exists first rest,
    completions = first :: rest
    /\ In (fileAt files first) files
    /\ displayImage s' = Some (fileAt files first)
    /\ originalRoomImage s' = Some (fileAt files first)
    /\ placedProducts s' = [].
Proof.
  intros Hne Hperm s'. subst s'.
  rewrite (handleFileChange_complete files handleRoomUpload completions
             Hne Hperm).
  destruct (completions_in_range files completions Hperm) as [Hrange Hlen].
  destruct completions as [|first rest].
  - destruct files; [contradiction | discriminate].
  - exists first, rest. split; [reflexivity|].
    split; [|now repeat split].
    inversion Hrange; subst. unfold fileAt. now apply nth_In.
Qed.

Lemma room_is_first_file_read_witness :
  let s' := run (handleFileChange (Some [Sample.room]) handleRoomUpload
                   [0%nat]) initialState in
  ([Sample.room] <> []
   /\ Permutation.Permutation [0%nat] (seq 0 (List.length [Sample.room])))
  /\ displayImage s' = Some Sample.room.
Proof.
  intro s'.
  assert (H1 : [Sample.room] <> []) by discriminate.
  assert (H2 : Permutation.Permutation [0%nat]
                 (seq 0 (List.length [Sample.room])))
    by apply Permutation.Permutation_refl.
  split; [now split|].
  destruct (room_is_first_file_read [Sample.room] [0%nat] initialState H1 H2)
    as (first & rest & E & _ & Hd & _).
  injection E as <- <-. exact Hd.
Defined.

(** ** The loading message *)

Lemma indexOf_absent (m : string) :
  ~ In m loadingMessages -> indexOf m loadingMessages = (-1)%Z.
Proof.
  intro H. unfold loadingMessages in *. cbn [In] in H. cbn [indexOf].
  repeat match goal with
         | |- context [String.eqb ?a m] =>
             replace (String.eqb a m) with false
               by (symmetry; apply String.eqb_neq; intro E; apply H;
                   rewrite E; tauto)
         end.
  reflexivity.
Qed.

(** Every tick shows one of the five messages; a message that is not one of
    them is followed by the first; from any of the five, the rotation comes
    back to it after five ticks and not before. *)
Theorem loading_message_cycles_through_all (m : string) :
  (exists next,
     nextLoadingMessage m = Some next /\ In next loadingMessages)
  /\ (~ In m loadingMessages ->
      nextLoadingMessage m = nth_error loadingMessages 0)
  /\ (In m loadingMessages ->
      rotate 5 m = Some m
      /\ forall ticks, (0 < ticks < 5)%nat -> rotate ticks m <> Some m).
Proof.
  assert (Hin : In m loadingMessages ->
                (exists next, nextLoadingMessage m = Some next
                              /\ In next loadingMessages)
                /\ rotate 5 m = Some m
                /\ forall ticks, (0 < ticks < 5)%nat ->
                                 rotate ticks m <> Some m).
  { intro H. unfold loadingMessages in H. simpl in H.
    destruct H as [<-|[<-|[<-|[<-|[<-|[]]]]]];
      (split; [eexists; split; [vm_compute; reflexivity | simpl; tauto]|]);
      (split; [vm_compute; reflexivity|]);
      intros [|[|[|[|[|ticks]]]]] Hticks; try lia;
      vm_compute; discriminate. }
  assert (Hout : ~ In m loadingMessages ->
                 nextLoadingMessage m = nth_error loadingMessages 0).
  { intro H. unfold nextLoadingMessage.
    now rewrite (indexOf_absent m H). }
  split; [|split; [exact Hout | intro H; apply (Hin H)]].
  destruct (in_dec string_dec m loadingMessages) as [H|H].
  - apply (Hin H).
  - rewrite (Hout H). eexists. split; [reflexivity | simpl; tauto].
Qed.

Lemma loading_message_cycles_through_all_witness :
  let m := "Analyzing perspective..."%string in
  In m loadingMessages
  /\ nextLoadingMessage m = Some "Adding the finishing touches..."%string
  /\ rotate 5 m = Some m.
Proof.
  intro m.
  assert (H : In m loadingMessages) by (simpl; tauto).
  split; [exact H|]. split; [reflexivity|].
  destruct (loading_message_cycles_through_all m) as (_ & _ & Hc).
  exact (proj1 (Hc H)).
Defined.

(** ** Gestures *)

Lemma dragged_absorbs (i : Interaction) (dx1 dy1 dx2 dy2 : Q) (p : Product) :
  dragged i dx2 dy2 (dragged i dx1 dy1 p) = dragged i dx2 dy2 p.
Proof.
  unfold dragged.
  destruct (Z.eqb (id p) (productId i)) eqn:E; [|now rewrite E].
  destruct (type i) as [[]|]; simpl; rewrite E; reflexivity.
Qed.

Lemma step_move (s : State) (e : PointerEvent) (i : Interaction) :
  interactionState s = Some i ->
  step s (MouseMoved e)
  = mkState (originalRoomImage s) (displayImage s) (availableProducts s)
      (map (dragged i (clientX e - startX i) (clientY e - startY i))
           (placedProducts s))
      (selectedProductId s) (isLoading s) (isProcessingProducts s)
      (error s) (previousState s) (userInstructions s) (Some i).
Proof.
  intro H. unfold step, handle, handleMouseMove. rewrite H.
  cbn [run fold_left apply]. now rewrite H.
Qed.

Lemma step_move_idle (s : State) (e : PointerEvent) :
  interactionState s = None -> step s (MouseMoved e) = s.
Proof.
  intro H. unfold step, handle, handleMouseMove. now rewrite H.
Qed.

(** Pointer moves are not cumulative: after two moves of one gesture the
    page is where the second move alone would have put it. *)
Theorem drag_follows_last_pointer_position
    (s : State) (e1 e2 : PointerEvent) :
  step (step s (MouseMoved e1)) (MouseMoved e2) = step s (MouseMoved e2).
Proof.
  destruct (interactionState s) as [i|] eqn:H.
  - rewrite (step_move s e1 i H), (step_move s e2 i H).
    rewrite step_move with (i := i) by reflexivity.
    cbn [originalRoomImage displayImage
      availableProducts placedProducts selectedProductId isLoading
      isProcessingProducts error previousState userInstructions].
    f_equal. rewrite map_map. apply map_ext. intro p.
    apply dragged_absorbs.
  - rewrite (step_move_idle s e1 H). reflexivity.
Qed.

(** A press names a placement by its id, and the gesture starts from the
    first placement of the collection that carries this id (the one [find]
    returns).  The press selects the id, and a pointer move then puts every
    placement with this id at that first placement's position plus the
    pointer's displacement, sizes untouched; placements with another id
    stay. *)
Theorem press_then_move_translates
    (s : State) (e e' : PointerEvent) (pid : Z) (product : Product) :
  find (fun p => Z.eqb (id p) pid) (placedProducts s) = Some product ->
  let s' := step (step s (MousePressed e pid Move true)) (MouseMoved e') in
  selectedProductId s' = Some pid
  /\ forall n p,
       nth_error (placedProducts s) n = Some p ->
       exists p',
         nth_error (placedProducts s') n = Some p'
         /\ (id p = pid ->
             x p' = x product + (clientX e' - clientX e)
             /\ y p' = y product + (clientY e' - clientY e)
             /\ width p' = width p /\ height p' = height p)
         /\ (id p <> pid -> p' = p).
Proof.
  intros Hfind s'. subst s'.
  set (i := mkInteraction (Some Move) pid (clientX e) (clientY e)
              (x product) (y product) (width product) (height product)).
  assert (E : step s (MousePressed e pid Move true)
              = mkState (originalRoomImage s) (displayImage s)
                  (availableProducts s) (placedProducts s) (Some pid)
                  (isLoading s) (isProcessingProducts s) (error s)
                  (previousState s) (userInstructions s) (Some i)).
  { unfold step, handle, handleMouseDown. now rewrite Hfind. }
  rewrite E. rewrite step_move with (i := i) by reflexivity.
  cbn [selectedProductId placedProducts].
  split; [reflexivity|].
  intros n p Hn.
  exists (dragged i (clientX e' - clientX e) (clientY e' - clientY e) p).
  split; [now apply nth_error_dragged|].
  unfold dragged. cbn [productId type i].
  destruct (Z.eqb_spec (id p) pid) as [Heq|Hne]; split;
    try (intros ?; contradiction); intros _; now repeat split.
Qed.

Lemma press_then_move_translates_witness :
  let s := session Sample.sameMillisecond in
  let lamp := newProduct (mkPointer 120 90) Sample.origin Sample.lamp
                "a lamp" 100 200 1000 in
  let s' := step (step s (MousePressed (mkPointer 50 20) 1000 Move true))
                 (MouseMoved (mkPointer 60 40)) in
  (find (fun p => Z.eqb (id p) 1000) (placedProducts s)
   = Some Sample.chairPlaced
   /\ nth_error (placedProducts s) 1 = Some lamp)
  /\ selectedProductId s' = Some 1000%Z
  /\ exists p',
       nth_error (placedProducts s') 1 = Some p'
       /\ x p' = x Sample.chairPlaced + (60 - 50)
       /\ y p' = y Sample.chairPlaced + (40 - 20)
       /\ width p' = width lamp.
Proof.
  intros s lamp s'.
  assert (H : find (fun p => Z.eqb (id p) 1000) (placedProducts s)
              = Some Sample.chairPlaced) by reflexivity.
  assert (Hlamp : nth_error (placedProducts s) 1 = Some lamp)
    by reflexivity.
  split; [now split|].
  destruct (press_then_move_translates s (mkPointer 50 20)
              (mkPointer 60 40) 1000 Sample.chairPlaced H) as [Hsel Hall].
  split; [exact Hsel|].
  destruct (Hall 1%nat lamp Hlamp) as (p' & Hn & Hmoved & _).
  exists p'. destruct (Hmoved eq_refl) as (Hx & Hy & Hw & _).
  now repeat split.
Defined.



(** After the pointer is released, pointer moves change nothing, however
    many follow. *)
Theorem release_ends_the_gesture (s : State) (moves : list PointerEvent) :
  fold_left step (map MouseMoved moves) (step s MouseReleased)
  = step s MouseReleased.
Proof.
  assert (H : interactionState (step s MouseReleased) = None) by reflexivity.
  revert H. generalize (step s MouseReleased). intros s' H.
  induction moves as [|e es IH]; [reflexivity|].
  simpl. now rewrite (step_move_idle s' e H).
Qed.

(** ** Reset *)

(** Reset shows the original room again and drops the placements, the
    message and the snapshot, so that neither Undo nor Harmonize is
    available after it and a second Reset changes nothing; the catalog, the
    original image and the selection are kept. *)
Lemma reset_leaves_nothing_to_undo (s : State) :
  let s' := run (handleReset s) s in
  displayImage s' = originalRoomImage s
  /\ placedProducts s' = []
  /\ error s' = None
  /\ previousState s' = None
  /\ undoOffered s' = false
  /\ harmonizeEnabled s' = false
  /\ handleUndo s' = []
  /\ availableProducts s' = availableProducts s
  /\ originalRoomImage s' = originalRoomImage s
  /\ selectedProductId s' = selectedProductId s
  /\ run (handleReset s') s' = s'.
Proof. now repeat split. Qed.

(** ** Harmonize, end to end *)

Lemma find_first_match {A} (f : A -> bool) (skipped : list A) (a : A)
    (rest : list A) :
  forallb (fun b => negb (f b)) skipped = true ->
  f a = true ->
  find f (skipped ++ a :: rest) = Some a.
Proof.
  intros Hskip Ha. induction skipped as [|b bs IH]; simpl.
  - now rewrite Ha.
  - simpl in Hskip. apply andb_true_iff in Hskip as [Hb Hbs].
    apply negb_true_iff in Hb. rewrite Hb. now apply IH.
Qed.

(** The image taken from a response is the first part of the first
    candidate that carries inline data; parts before it are passed over. *)
Lemma first_image_part_found
    (response : Response) (c : Candidate) (cs : list Candidate)
    (ct : Content) (skipped : list Part) (p : Part) (rest : list Part)
    (d : InlineData) :
  candidates response = Some (c :: cs) ->
  content c = Some ct ->
  parts ct = Some (skipped ++ p :: rest) ->
  forallb (fun q => negb (isSome (inlineData q))) skipped = true ->
  inlineData p = Some d ->
  findImagePart response = ([], Some (Some p)).
Proof.
  intros Hc Hct Hp Hskip Hd. unfold findImagePart.
  rewrite Hc. simpl. rewrite Hct, Hp.
  rewrite (find_first_match _ skipped p rest Hskip); [reflexivity|].
  now rewrite Hd.
Qed.

Lemma buildComposite_ok (env : HarmonizeEnv) (base : BaseImage)
    (roomImage : string) (placed : list Product) :
  canvasContext env = true ->
  imageRef env = Some base ->
  forallb (fun p => imageLoads env (src p)) placed = true ->
  buildComposite env roomImage placed
  = (CanvasSize (naturalWidth base) (naturalHeight base)
     :: DrawImage roomImage 0 0 (inject_Z (naturalWidth base))
                  (inject_Z (naturalHeight base))
     :: map (placementDraw
               (Num.ratio (naturalWidth base) (clientWidth base))
               (Num.ratio (naturalHeight base) (clientHeight base)))
            placed,
     Some tt).
Proof.
  intros Hctx Href Hloads. unfold buildComposite. rewrite Hctx, Href.
  unfold promiseAll.
  rewrite loads_have_no_effects, (loads_all_resolve _ _ Hloads).
  pose proof (drawLoaded_from
                (Num.ratio (naturalWidth base) (clientWidth base))
                (Num.ratio (naturalHeight base) (clientHeight base))
                [] placed) as D.
  simpl in D. simpl. rewrite D. reflexivity.
Qed.

Lemma draws_are_not_requests (scaleX scaleY : Q) (placed : list Product) :
  filter isNetworkCall (map (placementDraw scaleX scaleY) placed) = [].
Proof. induction placed as [|p ps IH]; [reflexivity | exact IH]. Qed.

Lemma draws_are_silent (scaleX scaleY : Q) (placed : list Product) :
  forallb silent (map (placementDraw scaleX scaleY) placed) = true.
Proof. induction placed as [|p ps IH]; [reflexivity | exact IH]. Qed.

(** A harmonize call that finds the canvas, loads every placement image and
    is answered with an image sends exactly one request, replaces the
    display image by the data URL of the first image part, empties the
    placements, keeps the earlier image and placements as the snapshot,
    and ends with the loading indicator off and no message. *)
Theorem harmonize_success
    (env : HarmonizeEnv) (s : State) (roomImage : string) (base : BaseImage)
    (response : Response) (c : Candidate) (cs : list Candidate)
    (ct : Content) (skipped : list Part) (p : Part) (rest : list Part)
    (d : InlineData) :
  displayImage s = Some roomImage ->
  truthy (Some roomImage) = true ->
  placedProducts s <> [] ->
  canvasContext env = true ->
  imageRef env = Some base ->
  forallb (fun q => imageLoads env (src q)) (placedProducts s) = true ->
  (forall data prompt, generateImage env data prompt = Some response) ->
  candidates response = Some (c :: cs) ->
  content c = Some ct ->
  parts ct = Some (skipped ++ p :: rest) ->
  forallb (fun q => negb (isSome (inlineData q))) skipped = true ->
  inlineData p = Some d ->
  let es := handleHarmonize env s in
  let s' := run es s in
  displayImage s' = Some (dataUrl d)
  /\ placedProducts s' = []
  /\ previousState s'
     = Some (mkSnapshot (displayImage s) (placedProducts s))
  /\ isLoading s' = false
  /\ error s' = None
  /\ networkCalls es = 1%nat
  /\ userErrors es = 0%nat.
Proof.
  intros Hd Ht Hne Hctx Href Hloads Hgen Hc Hct Hp Hskip Hi es s'.
  set (scaleX := Num.ratio (naturalWidth base) (clientWidth base)).
  set (scaleY := Num.ratio (naturalHeight base) (clientHeight base)).
  set (draws := map (placementDraw scaleX scaleY) (placedProducts s)).
  set (canvas := [CanvasSize (naturalWidth base) (naturalHeight base);
                  DrawImage roomImage 0 0 (inject_Z (naturalWidth base))
                    (inject_Z (naturalHeight base))] ++ draws).
  set (request :=
         GenerateContent "gemini-2.5-flash-image-preview"%string
           (nth_error (Str.split ","%char (toDataURL env canvas)) 1)
           "image/jpeg"%string
           (promptText (placedProducts s) (userInstructions s))).
  assert (Hreq : isNetworkCall request = true) by reflexivity.
  assert (Hquiet : silent request = true) by reflexivity.
  assert (Hlen : Nat.eqb (List.length (placedProducts s)) 0 = false)
    by (destruct (placedProducts s); [contradiction | reflexivity]).
  assert (E : es = [ SetPreviousState
                       (Some (mkSnapshot (displayImage s)
                                         (placedProducts s)));
                     SetIsLoading true; SetError None ]
                   ++ canvas
                   ++ [ request; SetDisplayImage (Some (dataUrl d));
                        SetPlacedProducts (fun _ => []) ]
                   ++ [ SetIsLoading false ]).
  { subst es. unfold handleHarmonize. rewrite Hd, Ht, Hlen.
    cbn [negb orb]. unfold harmonizeBody.
    rewrite (buildComposite_ok env base roomImage (placedProducts s)
               Hctx Href Hloads).
    cbn [Exn.bind fst Exn.emit]. rewrite Hgen.
    rewrite (first_image_part_found response c cs ct skipped p rest d
               Hc Hct Hp Hskip Hi).
    cbn [Exn.bind]. rewrite Hi. cbn [Exn.bind Exn.emit app].
    unfold tryCatchFinally. subst request canvas draws. cbn [app].
    rewrite <- !app_assoc. reflexivity. }
  assert (Hsilent : forallb silent canvas = true)
    by (subst canvas; apply draws_are_silent).
  assert (Hnet : filter isNetworkCall canvas = [])
    by (subst canvas; apply draws_are_not_requests).
  subst s'. rewrite E. unfold networkCalls, userErrors.
  rewrite !run_app, !filter_app.
  rewrite (silent_no_user_error canvas Hsilent), Hnet.
  rewrite (run_silent canvas _ Hsilent).
  cbn [filter isNetworkCall isUserError app List.length].
  rewrite Hreq.
  replace (isUserError request) with false
    by (destruct request; try discriminate; reflexivity).
  cbn [run fold_left]. rewrite (apply_silent request _ Hquiet).
  now repeat split.
Qed.

Lemma harmonize_success_witness :
  let s := Sample.chairDropped in
  let s' := run (handleHarmonize Sample.browser s) s in
  (displayImage s = Some Sample.room
   /\ placedProducts s <> []
   /\ forallb (fun q => imageLoads Sample.browser (src q))
              (placedProducts s) = true)
  /\ displayImage s' = Some (dataUrl Sample.harmonized)
  /\ placedProducts s' = []
  /\ networkCalls (handleHarmonize Sample.browser s) = 1%nat.
Proof.
  intros s s'.
  assert (H1 : displayImage s = Some Sample.room) by reflexivity.
  assert (H2 : placedProducts s <> []) by discriminate.
  assert (H3 : forallb (fun q => imageLoads Sample.browser (src q))
                 (placedProducts s) = true) by reflexivity.
  split; [now repeat split|].
  destruct (harmonize_success Sample.browser s Sample.room
              (mkBaseImage 1200 800 600 400) Sample.answer _ [] _
              [mkPart None (Some "Here is your room."%string)]
              (mkPart (Some Sample.harmonized) None) [] Sample.harmonized
              H1 eq_refl H2 eq_refl eq_refl H3 (fun _ _ => eq_refl)
              eq_refl eq_refl eq_refl eq_refl eq_refl)
    as (Hd & Hp & _ & _ & _ & Hn & _).
  now repeat split.
Defined.

(** Harmonize followed by Undo is a round trip on what is shown: the display
    image and the placements are again those of before the harmonize, and
    the snapshot is used up. *)
Theorem harmonize_then_undo_round_trip
    (env : HarmonizeEnv) (s : State) (roomImage : string) :
  harmonizeEnabled s = true ->
  displayImage s = Some roomImage ->
  truthy (Some roomImage) = true ->
  snd (harmonizeBody env roomImage (placedProducts s) (userInstructions s))
  = Some tt ->
  let s1 := step s (HarmonizeClicked env) in
  let s2 := step s1 UndoClicked in
  undoOffered s1 = true
  /\ displayImage s2 = displayImage s
  /\ placedProducts s2 = placedProducts s
  /\ previousState s2 = None
  /\ undoOffered s2 = false.
Proof.
  intros Hen Hd Ht Hok s1 s2.
  destruct (undo_offered_after_harmonize env s roomImage Hen Hd Ht Hok)
    as (Hu & Hp & Hs).
  fold s1 in Hu, Hp, Hs. split; [exact Hu|].
  subst s2. unfold step at 1 2 3 4. unfold handle. rewrite Hu.
  unfold handleUndo. rewrite Hs. now repeat split.
Qed.

Lemma harmonize_then_undo_round_trip_witness :
  let s := Sample.chairDropped in
  let s2 := step (step s (HarmonizeClicked Sample.browser)) UndoClicked in
  (harmonizeEnabled s = true
   /\ snd (harmonizeBody Sample.browser Sample.room (placedProducts s)
             (userInstructions s)) = Some tt)
  /\ displayImage s2 = displayImage s
  /\ placedProducts s2 = placedProducts s.
Proof.
  intros s s2.
  assert (H1 : harmonizeEnabled s = true) by reflexivity.
  assert (H2 : snd (harmonizeBody Sample.browser Sample.room
                      (placedProducts s) (userInstructions s)) = Some tt)
    by reflexivity.
  split; [now split|].
  destruct (harmonize_then_undo_round_trip Sample.browser s Sample.room
              H1 eq_refl eq_refl H2) as (_ & Hd & Hp & _).
  now split.
Defined.

Lemma loads_one_rejects (env : HarmonizeEnv) (placed : list Product) :
  existsb (fun p => negb (imageLoads env (src p))) placed = true ->
  Exn.all (map snd (map (loadProductImage env) placed)) = None.
Proof.
  induction placed as [|p ps IH]; intro H; [discriminate|].
  simpl in H. simpl. unfold loadProductImage at 1.
  destruct (imageLoads env (src p)); simpl in *.
  - now rewrite (IH H).
  - reflexivity.
Qed.

(** When the image of one placement fails to load, the harmonize call
    stops before anything is sent: at most the room image has been drawn,
    no placement is drawn, no request is made, and the user gets the
    harmonize failure message with image and placements as they were. *)
Theorem image_load_failure_sends_nothing
    (env : HarmonizeEnv) (s : State) (roomImage : string) :
  displayImage s = Some roomImage ->
  truthy (Some roomImage) = true ->
  existsb (fun p => negb (imageLoads env (src p))) (placedProducts s)
  = true ->
  let es := handleHarmonize env s in
  es = [ SetPreviousState
           (Some (mkSnapshot (displayImage s) (placedProducts s)));
         SetIsLoading true; SetError None ]
       ++ match (if canvasContext env then imageRef env else None) with
          | Some base =>
              [ CanvasSize (naturalWidth base) (naturalHeight base);
                DrawImage roomImage 0 0 (inject_Z (naturalWidth base))
                          (inject_Z (naturalHeight base)) ]
          | None => []
          end
       ++ [ ConsoleError "Harmonization failed:"%string;
            SetError (Some harmonizeError);
            SetIsLoading false ]
  /\ networkCalls es = 0%nat
  /\ error (run es s) = Some harmonizeError
  /\ displayImage (run es s) = displayImage s
  /\ placedProducts (run es s) = placedProducts s.
Proof.
  intros Hd Ht Hfail es.
  assert (Hlen : Nat.eqb (List.length (placedProducts s)) 0 = false)
    by (destruct (placedProducts s); [discriminate | reflexivity]).
  assert (E : es = [ SetPreviousState
                       (Some (mkSnapshot (displayImage s)
                                         (placedProducts s)));
                     SetIsLoading true; SetError None ]
                   ++ match (if canvasContext env then imageRef env
                             else None) with
                      | Some base =>
                          [ CanvasSize (naturalWidth base)
                                       (naturalHeight base);
                            DrawImage roomImage 0 0
                              (inject_Z (naturalWidth base))
                              (inject_Z (naturalHeight base)) ]
                      | None => []
                      end
                   ++ [ ConsoleError "Harmonization failed:"%string;
                        SetError (Some harmonizeError);
                        SetIsLoading false ]).
  { subst es. unfold handleHarmonize. rewrite Hd, Ht, Hlen.
    cbn [negb orb]. unfold harmonizeBody, buildComposite.
    destruct (if canvasContext env then imageRef env else None) as [base|];
      [|reflexivity].
    unfold promiseAll.
    rewrite loads_have_no_effects, (loads_one_rejects env _ Hfail).
    reflexivity. }
  split; [exact E|]. rewrite E.
  destruct (if canvasContext env then imageRef env else None) as [base|];
    cbn; rewrite Hd; now repeat split.
Qed.

Lemma image_load_failure_sends_nothing_witness :
  let s := Tour.twoPlaced in
  let es := handleHarmonize Tour.lampBroken s in
  (displayImage s = Some Sample.room
   /\ existsb (fun p => negb (imageLoads Tour.lampBroken (src p)))
              (placedProducts s) = true)
  /\ networkCalls es = 0%nat
  /\ error (run es s) = Some harmonizeError
  /\ placedProducts (run es s) = placedProducts s.
Proof.
  intros s es.
  assert (H1 : displayImage s = Some Sample.room) by reflexivity.
  assert (H2 : existsb (fun p => negb (imageLoads Tour.lampBroken (src p)))
                 (placedProducts s) = true) by reflexivity.
  split; [now split|].
  destruct (image_load_failure_sends_nothing Tour.lampBroken s Sample.room
              H1 eq_refl H2) as (_ & Hn & He & _ & Hp).
  now repeat split.
Defined.

(** ** The prompt *)

Lemma trimStart_allWhiteSpace (s : string) :
  allWhiteSpace s = true -> Str.trimStart s = EmptyString.
Proof.
  induction s as [|c r IH]; intro H; [reflexivity|].
  simpl in H. apply andb_true_iff in H as [Hc Hr].
  simpl. rewrite Hc. now apply IH.
Qed.

Lemma trimStart_first_character (s : string) :
  allWhiteSpace s = false ->
  exists c r, Str.trimStart s = String c r /\ Str.isWhiteSpace c = false.
Proof.
  induction s as [|c r IH]; intro H; [discriminate|].
  cbn [allWhiteSpace] in H. cbn [Str.trimStart].
  destruct (Str.isWhiteSpace c) eqn:Hc.
  - apply IH. exact H.
  - now exists c, r.
Qed.

Lemma trim_keeps_other_characters (s : string) :
  allWhiteSpace s = false -> String.eqb (Str.trim s) EmptyString = false.
Proof.
  intro H. destruct (trimStart_first_character s H) as (c & r & E & Hc).
  unfold Str.trim. rewrite E. cbn [Str.trimEnd]. now rewrite Hc.
Qed.

Lemma append_cancel_l (a b c : string) :
  (a ++ b)%string = (a ++ c)%string -> b = c.
Proof.
  induction a as [|ch a IH]; simpl; intro H; [exact H|].
  injection H as H. now apply IH.
Qed.

(** The prompt is the strict one, the same as for the empty text, exactly
    when the instructions contain nothing but white-space characters: TAB,
    LF, VT, FF, CR, SPACE and NO-BREAK SPACE, the white space that [trim]
    strips among the characters of the model.  With any other character
    in them the prompt is a different one. *)
Theorem blank_instructions_give_strict_prompt
    (placed : list Product) (instructions : string) :
  promptText placed instructions = promptText placed EmptyString
  <-> allWhiteSpace instructions = true.
Proof.
  split.
  - intro H. destruct (allWhiteSpace instructions) eqn:Hblank;
      [reflexivity | exfalso].
    unfold promptText in H.
    rewrite (trim_keeps_other_characters instructions Hblank) in H.
    change (String.eqb (Str.trim EmptyString) EmptyString) with true in H.
    cbn [negb] in H.
    do 3 apply append_cancel_l in H.
    unfold Str.newline in H. cbn [append] in H. discriminate.
  - intro H. unfold promptText, Str.trim.
    now rewrite (trimStart_allWhiteSpace instructions H).
Qed.

Lemma blank_instructions_give_strict_prompt_witness :
  let noBreakSpace := Ascii false false false false false true false true in
  let blank := String " "%char
                 (Str.newline ++ String noBreakSpace " ")%string in
  allWhiteSpace blank = true
  /\ promptText [Sample.chairPlaced] blank
     = promptText [Sample.chairPlaced] EmptyString.
Proof.
  intros noBreakSpace blank.
  assert (H : allWhiteSpace blank = true) by reflexivity.
  split; [exact H|].
  exact (proj2 (blank_instructions_give_strict_prompt
                  [Sample.chairPlaced] blank) H).
Defined.

(** ** Catalog ingest, item by item *)

Section IngestItems.

Variable service : DescriptionService.

Lemma describeProduct_malformed (url : string) :
  wellFormedUrl url = false ->
  describeProduct service url
  = ([ConsoleError "Invalid data URL for product image."%string],
     Some (mkEntry url "a product"%string)).
Proof.
  unfold wellFormedUrl, describeProduct.
  destruct (nth_error (Str.split ","%char url) 1) as [b|];
    destruct (Str.matchMimeType url) as [m|]; try reflexivity.
  destruct (truthy (Some b)), (truthy (Some m)); simpl;
    try reflexivity; discriminate.
Qed.

Lemma describeProduct_one_request (url : string) :
  List.length (filter isNetworkCall (fst (describeProduct service url)))
  = if wellFormedUrl url then 1%nat else 0%nat.
Proof.
  destruct (wellFormedUrl url) eqn:E.
  - unfold wellFormedUrl in E. unfold describeProduct.
    destruct (nth_error (Str.split ","%char url) 1) as [b|];
      [|discriminate].
    destruct (Str.matchMimeType url) as [m|]; [|discriminate].
    apply andb_true_iff in E as [-> ->]. simpl.
    now destruct (service b m).
  - now rewrite (describeProduct_malformed url E).
Qed.

Lemma requests_counted (urls : list string) :
  List.length
    (filter isNetworkCall
       (flat_map fst (map (describeProduct service) urls)))
  = List.length (filter wellFormedUrl urls).
Proof.
  induction urls as [|u us IH]; [reflexivity|].
  simpl. rewrite filter_app, length_app, IH, describeProduct_one_request.
  now destruct (wellFormedUrl u).
Qed.

Lemma malformed_batch_resolves (urls : list string) :
  forallb (fun u => negb (wellFormedUrl u)) urls = true ->
  Exn.all (map snd (map (describeProduct service) urls))
  = Some (map (fun u => mkEntry u "a product"%string) urls).
Proof.
  induction urls as [|u us IH]; intro H; [reflexivity|].
  simpl in H. apply andb_true_iff in H as [Hu Hus].
  apply negb_true_iff in Hu.
  simpl. rewrite (describeProduct_malformed u Hu), (IH Hus). reflexivity.
Qed.

End IngestItems.

(** Every upload that parses as a data URL costs exactly one request, and
    all of them are sent whatever the service answers: a request that fails
    does not keep the others from being made. *)
Theorem every_well_formed_upload_is_requested
    (service : DescriptionService) (urls : list string) :
  networkCalls (handleProductUpload service urls)
  = List.length (filter wellFormedUrl urls).
Proof.
  unfold networkCalls, handleProductUpload, promiseAll.
  pose proof (requests_counted service urls) as H.
  set (requests := flat_map fst (map (describeProduct service) urls)) in *.
  destruct (Exn.all (map snd (map (describeProduct service) urls)));
    simpl; rewrite !filter_app, !length_app, H; simpl; lia.
Qed.

Lemma catalogOnly_run (es : list Effect) (s : State) :
  forallb catalogOnly es = true ->
  originalRoomImage (run es s) = originalRoomImage s
  /\ displayImage (run es s) = displayImage s
  /\ placedProducts (run es s) = placedProducts s
  /\ selectedProductId (run es s) = selectedProductId s
  /\ isLoading (run es s) = isLoading s
  /\ previousState (run es s) = previousState s
  /\ userInstructions (run es s) = userInstructions s
  /\ interactionState (run es s) = interactionState s.
Proof.
  revert s. induction es as [|e es IH]; intros s H; [now repeat split|].
  simpl in H. apply andb_true_iff in H as [He Hes].
  rewrite run_cons.
  destruct (IH (apply e s) Hes) as (-> & -> & -> & -> & -> & -> & -> & ->).
  destruct e; simpl in He; try discriminate; now repeat split.
Qed.

Lemma silent_catalogOnly (es : list Effect) :
  forallb silent es = true -> forallb catalogOnly es = true.
Proof.
  induction es as [|e es IH]; intro H; [reflexivity|].
  simpl in H. apply andb_true_iff in H as [He Hes].
  simpl. rewrite (IH Hes). destruct e; simpl in He; try discriminate;
    reflexivity.
Qed.

(** Whatever the service does, a product upload ends with the processing
    flag off and has written nothing but the catalog, the message and that
    flag: the room, the placements, the selection, the snapshot and the
    loading indicator are as before. *)
Theorem product_upload_touches_catalog_only
    (service : DescriptionService) (urls : list string) (s : State) :
  let s' := run (handleProductUpload service urls) s in
  isProcessingProducts s' = false
  /\ originalRoomImage s' = originalRoomImage s
  /\ displayImage s' = displayImage s
  /\ placedProducts s' = placedProducts s
  /\ selectedProductId s' = selectedProductId s
  /\ isLoading s' = isLoading s
  /\ previousState s' = previousState s
  /\ userInstructions s' = userInstructions s
  /\ interactionState s' = interactionState s.
Proof.
  intro s'. subst s'.
  pose proof (silent_catalogOnly _ (requests_silent service urls)) as H.
  assert (E : exists body,
             forallb catalogOnly body = true
             /\ handleProductUpload service urls
                = body ++ [SetIsProcessingProducts false]).
  { unfold handleProductUpload, promiseAll.
    set (requests := flat_map fst (map (describeProduct service) urls)) in *.
    destruct (Exn.all (map snd (map (describeProduct service) urls)))
      as [newProducts|]; simpl.
    - exists ([SetIsProcessingProducts true; SetError None]
              ++ requests
              ++ [SetAvailableProducts
                    (fun prev => prev ++ newProducts)]).
      split; [now rewrite !forallb_app, H|].
      simpl. now rewrite <- !app_assoc.
    - exists ([SetIsProcessingProducts true; SetError None]
              ++ requests
              ++ [ConsoleError "Failed to process products:"%string;
                  SetError (Some productUploadError)]).
      split; [now rewrite !forallb_app, H|].
      simpl. now rewrite <- !app_assoc. }
  destruct E as (body & Hbody & ->).
  rewrite run_app.
  destruct (catalogOnly_run body s Hbody)
    as (H1 & H2 & H3 & H4 & H5 & H6 & H7 & H8).
  cbn. now repeat split.
Qed.

(** Uploads that do not parse as data URLs never fail the batch and never
    reach the service: each becomes a catalog entry described as
    [a product], in input order, and no message is shown. *)
Theorem malformed_uploads_fall_back
    (service : DescriptionService) (urls : list string) (s : State) :
  forallb (fun u => negb (wellFormedUrl u)) urls = true ->
  let s' := run (handleProductUpload service urls) s in
  availableProducts s'
  = availableProducts s ++ map (fun u => mkEntry u "a product"%string) urls
  /\ error s' = None.
Proof.
  intros H s'. subst s'.
  unfold handleProductUpload, promiseAll.
  pose proof (requests_silent service urls) as Hsilent.
  set (requests := flat_map fst (map (describeProduct service) urls)) in *.
  rewrite (malformed_batch_resolves service urls H). simpl.
  rewrite !run_app, (run_silent requests _ Hsilent).
  now split.
Qed.

Lemma malformed_uploads_fall_back_witness :
  let urls := ["not a data url"%string; "data:image/png;base64"%string] in
  let s' := run (handleProductUpload Sample.flaky urls) Sample.roomLoaded in
  forallb (fun u => negb (wellFormedUrl u)) urls = true
  /\ availableProducts s'
     = [ mkEntry "not a data url"%string "a product"%string;
         mkEntry "data:image/png;base64"%string "a product"%string ]
  /\ error s' = None.
Proof.
  intros urls s'.
  assert (H : forallb (fun u => negb (wellFormedUrl u)) urls = true)
    by reflexivity.
  split; [exact H|].
  exact (malformed_uploads_fall_back Sample.flaky urls Sample.roomLoaded H).
Defined.

(** ** Data URLs, written and read back *)

Lemma append_assoc (a b c : string) :
  ((a ++ b) ++ c)%string = (a ++ (b ++ c))%string.
Proof. induction a as [|ch a IH]; simpl; [reflexivity | now rewrite IH]. Qed.

Lemma without_append (c : ascii) (a b : string) :
  without c (a ++ b)%string = without c a && without c b.
Proof.
  induction a as [|d a IH]; simpl; [reflexivity|].
  now rewrite IH, andb_assoc.
Qed.

Lemma split_whole (sep : ascii) (s : string) :
  without sep s = true -> Str.split sep s = [s].
Proof.
  induction s as [|c r IH]; intro H; [reflexivity|].
  simpl in H. apply andb_true_iff in H as [Hc Hr].
  apply negb_true_iff in Hc. simpl. now rewrite Hc, (IH Hr).
Qed.

Lemma split_at_separator (sep : ascii) (a b : string) :
  without sep a = true ->
  Str.split sep (a ++ String sep b)%string = a :: Str.split sep b.
Proof.
  induction a as [|c r IH]; intro H; simpl.
  - now rewrite Ascii.eqb_refl.
  - simpl in H. apply andb_true_iff in H as [Hc Hr].
    apply negb_true_iff in Hc. now rewrite Hc, (IH Hr).
Qed.

Lemma lazy_capture (m rest : string) :
  without ";"%char m = true ->
  withoutLineTerminator m = true ->
  Str.lazyUntilSemicolon (m ++ String ";"%char rest)%string = Some m.
Proof.
  induction m as [|c r IH]; intros Hsemi Hline; [reflexivity|].
  simpl in Hsemi, Hline.
  apply andb_true_iff in Hsemi as [Hc Hr].
  apply andb_true_iff in Hline as [Hl Hlr].
  apply negb_true_iff in Hc, Hl.
  simpl. now rewrite Hc, Hl, (IH Hr Hlr).
Qed.

(** The data URL that harmonize builds from an image part reads back, when
    uploaded as a product, as the same bytes and mime type: the request for
    its description carries exactly the part's data and mime type.  The
    mime type must be non-empty and free of commas, semicolons and line
    breaks, the data non-empty and free of commas. *)
Theorem harmonized_image_reads_back_as_upload
    (service : DescriptionService) (d : InlineData) :
  inline_mimeType d <> EmptyString ->
  inline_data d <> EmptyString ->
  without ","%char (inline_mimeType d) = true ->
  without ";"%char (inline_mimeType d) = true ->
  withoutLineTerminator (inline_mimeType d) = true ->
  without ","%char (inline_data d) = true ->
  wellFormedUrl (dataUrl d) = true
  /\ fst (describeProduct service (dataUrl d))
     = [ GenerateContent "gemini-2.5-flash"%string (Some (inline_data d))
           (inline_mimeType d) describePrompt ].
Proof.
  intros Hm Hd Hcomma Hsemi Hline Hdata.
  destruct d as [data mime]. simpl in *.
  assert (Hsplit : nth_error (Str.split ","%char (dataUrl (mkInlineData
                                                             data mime))) 1
                   = Some data).
  { unfold dataUrl. simpl inline_mimeType. simpl inline_data.
    change (";base64," ++ data)%string
      with (";base64" ++ String ","%char data)%string.
    rewrite <- !append_assoc.
    rewrite split_at_separator.
    - now rewrite (split_whole _ data Hdata).
    - rewrite !without_append. simpl. now rewrite Hcomma. }
  assert (Hmatch : Str.matchMimeType (dataUrl (mkInlineData data mime))
                   = Some mime).
  { unfold dataUrl. simpl inline_mimeType. simpl inline_data.
    change (";base64," ++ data)%string
      with (String ";"%char ("base64," ++ data))%string.
    cbn [append Str.matchMimeType Ascii.eqb Bool.eqb].
    now rewrite lazy_capture. }
  assert (Htd : truthy (Some data) = true).
  { simpl. apply negb_true_iff. now apply String.eqb_neq. }
  assert (Htm : truthy (Some mime) = true).
  { simpl. apply negb_true_iff. now apply String.eqb_neq. }
  unfold wellFormedUrl, describeProduct.
  rewrite Hsplit, Hmatch, Htd, Htm. simpl.
  split; [reflexivity|]. now destruct (service data mime).
Qed.

Lemma harmonized_image_reads_back_as_upload_witness :
  let d := Sample.harmonized in
  wellFormedUrl (dataUrl d) = true
  /\ fst (describeProduct Sample.flaky (dataUrl d))
     = [ GenerateContent "gemini-2.5-flash"%string (Some "RESULT"%string)
           "image/png"%string describePrompt ].
Proof.
  intro d.
  apply (harmonized_image_reads_back_as_upload Sample.flaky d);
    first [discriminate | reflexivity].
Defined.

(** ** Snapshots *)

Lemma snapshotUsable_frame (s s' : State) :
  previousState s' = previousState s ->
  snapshotUsable s -> snapshotUsable s'.
Proof. unfold snapshotUsable. now intros ->. Qed.

Lemma harmonize_snapshotUsable (env : HarmonizeEnv) (s : State) :
  snapshotUsable s -> snapshotUsable (run (handleHarmonize env s) s).
Proof.
  intro H. unfold handleHarmonize.
  destruct (displayImage s) as [roomImage|] eqn:Hd;
    [|now apply (snapshotUsable_frame s)].
  destruct (truthy (Some roomImage)) eqn:Ht;
    [|now apply (snapshotUsable_frame s)].
  destruct (placedProducts s) as [|q qs] eqn:Hp;
    [now apply (snapshotUsable_frame s)|].
  cbn [negb orb List.length Nat.eqb].
  unfold snapshotUsable.
  destruct (harmonizeBody_cases env roomImage (q :: qs)
              (userInstructions s)) as [[Hthrow Hsilent]|(es & d & Hsilent & E)].
  - destruct (harmonizeBody env roomImage (q :: qs) (userInstructions s))
      as [bes [u|]]; simpl in Hthrow, Hsilent; [discriminate|].
    unfold tryCatchFinally. rewrite !run_app.
    rewrite (run_silent bes _ Hsilent). cbn -[truthy].
    split; [exact Ht | discriminate].
  - rewrite E. unfold tryCatchFinally. rewrite !run_app.
    rewrite (run_silent es _ Hsilent). cbn -[truthy].
    split; [exact Ht | discriminate].
Qed.

Lemma step_snapshotUsable (s : State) (ev : Event) :
  snapshotUsable s -> snapshotUsable (step s ev).
Proof.
  intro H. unfold step.
  destruct ev as [urls|service urls|e data rect loaded now|e pid ty mounted
                 |e| | |v| | |env]; simpl handle.
  - exact H.
  - destruct (truthy (originalRoomImage s) && negb (isProcessingProducts s));
      [|exact H].
    apply (snapshotUsable_frame s); [|exact H].
    apply keepsPlacements_run, handleProductUpload_keepsPlacements.
  - unfold handleDrop.
    destruct data as [[source text]|]; [|exact H].
    destruct rect as [rect|]; [|exact H].
    destruct (truthy (Some source)); [|exact H].
    destruct loaded as [[w h]|]; exact H.
  - apply (snapshotUsable_frame s); [|exact H].
    apply keepsPlacements_run, handleMouseDown_keepsPlacements.
  - unfold handleMouseMove. destruct (interactionState s); exact H.
  - exact H.
  - exact H.
  - exact H.
  - destruct (resetOffered s); [exact I | exact H].
  - destruct (undoOffered s); [|exact H].
    unfold handleUndo. destruct (previousState s) eqn:E; [exact I | exact H].
  - destruct (harmonizeEnabled s); [|exact H].
    now apply harmonize_snapshotUsable.
Qed.

Lemma session_snapshotUsable (evs : list Event) :
  snapshotUsable (session evs).
Proof.
  unfold session. assert (H : snapshotUsable initialState) by exact I.
  revert H. generalize initialState.
  induction evs as [|ev evs IH]; intros s H; [exact H|].
  simpl. apply IH. now apply step_snapshotUsable.
Qed.

(** In every session, Undo, whenever it is offered, brings back a display
    image and at least one placement, so Harmonize is available again
    right after it. *)
Theorem undo_always_restores_something (evs : list Event) :
  undoOffered (session evs) = true ->
  let s' := step (session evs) UndoClicked in
  truthy (displayImage s') = true
  /\ placedProducts s' <> []
  /\ harmonizeEnabled s' = true.
Proof.
  intros Hoffered s'. subst s'.
  pose proof (session_snapshotUsable evs) as Husable.
  apply undoOffered_spec in Hoffered as Hspec.
  destruct Hspec as (Hsnap & _ & Hidle).
  unfold step, handle. rewrite Hoffered.
  unfold handleUndo, snapshotUsable in *.
  destruct (previousState (session evs)) as [snapshot|]; [|contradiction].
  destruct Husable as [Himage Hplaced].
  cbn. split; [exact Himage|]. split; [exact Hplaced|].
  unfold harmonizeEnabled. cbn. rewrite Hidle.
  destruct (snap_placedProducts snapshot); [contradiction | reflexivity].
Qed.

Lemma undo_always_restores_something_witness :
  let evs := (Sample.oneSecondApart
              ++ [HarmonizeClicked Sample.browser])%list in
  let s' := step (session evs) UndoClicked in
  undoOffered (session evs) = true
  /\ truthy (displayImage s') = true
  /\ placedProducts s' <> []
  /\ harmonizeEnabled s' = true.
Proof.
  intros evs s'.
  assert (H : undoOffered (session evs) = true) by reflexivity.
  split; [exact H|].
  exact (undo_always_restores_something evs H).
Defined.

(** ** Witnesses for the session facts above *)

Lemma session_proportioned_witness :
  Forall loadsWithSize Sample.oneSecondApart
  /\ Forall wellProportioned
       (placedProducts (session Sample.oneSecondApart)).
Proof.
  assert (H : Forall loadsWithSize Sample.oneSecondApart).
  { repeat constructor. }
  split; [exact H|].
  exact (session_proportioned Sample.oneSecondApart H).
Defined.

Lemma undo_withdrawn_by_new_placement_witness :
  let s := step Sample.chairDropped (HarmonizeClicked Sample.browser) in
  (undoOffered s = true /\ truthy (Some Sample.lamp) = true)
  /\ undoOffered
       (step s (Dropped (mkPointer 120 90)
                  (Some (Sample.lamp, "a lamp"%string))
                  (Some Sample.origin) (Some (100, 200)%Z) 2000))
     = false.
Proof.
  intro s.
  assert (H : truthy (Some Sample.lamp) = true) by reflexivity.
  split; [split; [reflexivity | exact H]|].
  exact (undo_withdrawn_by_new_placement s (mkPointer 120 90) Sample.lamp
           "a lamp"%string Sample.origin 100 200 2000 H).
Defined.
